(** * movie-app: the search screen and the detail screen

    A shallow embedding of the two client components of the repository,
    [src/app/page.tsx] (search) and the movie detail page, together with
    the properties of their fetch-and-render flow.

    The components are React function components: their state lives in
    [useState] cells, their handlers are [async] functions that suspend at
    every [await], and React re-renders from the state once the
    synchronous stretch of code that called the setters has finished.  The
    embedding keeps that structure: an [async] function is a tree of
    synchronous effects and suspension points, a component is a record of
    state cells, and a render is a pure function from the state to a
    description of the markup. *)

From Stdlib Require Import String Ascii List ZArith NArith Bool Lia DecimalString.
From Stdlib Require Import DecimalPos DecimalN.
Import ListNotations.
Local Open Scope string_scope.

(** ** JavaScript values used by the components *)

(** What a [throw] or a rejected promise carries.  The detail page asks
    [err instanceof Error] and reads [err.message]. *)
Inductive Thrown : Type :=
| ErrorObj (message : string)
| NotAnError (shown : string).

(** How a promise settles. *)
Inductive Settled (X : Type) : Type :=
| Fulfilled (x : X)
| Rejected (reason : Thrown).
Arguments Fulfilled {X} x.
Arguments Rejected {X} reason.

(** A JavaScript string is a sequence of UTF-16 code units.  Text that the
    components only pass through to the markup is kept as [string]; the
    search text, whose code units [encodeURIComponent] inspects, is kept as
    its code units. *)
Definition code_unit := N.
Definition jsstring := list code_unit.

(** [!s] on a string: only the empty string is falsy. *)
Definition jsstring_truthy (s : jsstring) : bool :=
  match s with [] => false | _ :: _ => true end.

Definition string_truthy (s : string) : bool :=
  match s with EmptyString => false | String _ _ => true end.

(** [a || b] on strings. *)
Definition string_or (a b : string) : string :=
  if string_truthy a then a else b.

(** *** encodeURIComponent *)

Definition in_range (lo hi c : N) : bool := ((lo <=? c) && (c <=? hi))%N.

(** The characters [encodeURIComponent] leaves alone:
    [A-Z a-z 0-9 - _ . ! ~ * ' ( )]. *)
Definition uri_unreserved (c : code_unit) : bool :=
  in_range 65 90 c || in_range 97 122 c || in_range 48 57 c
  || existsb (N.eqb c) [45; 95; 46; 33; 126; 42; 39; 40; 41]%N.

Definition is_lead_surrogate (c : code_unit) : bool := in_range 55296 56319 c.
Definition is_trail_surrogate (c : code_unit) : bool := in_range 56320 57343 c.

(** The code point of a surrogate pair. *)
Definition surrogate_pair (lead trail : code_unit) : N :=
  ((lead - 55296) * 1024 + (trail - 56320) + 65536)%N.

(** The UTF-8 octets of a code point. *)
Definition utf8_octets (cp : N) : list N :=
  (if cp <? 128 then [cp]
   else if cp <? 2048 then [192 + cp / 64; 128 + cp mod 64]
   else if cp <? 65536 then
     [224 + cp / 4096; 128 + (cp / 64) mod 64; 128 + cp mod 64]
   else
     [240 + cp / 262144; 128 + (cp / 4096) mod 64;
      128 + (cp / 64) mod 64; 128 + cp mod 64])%N.

Definition hex_digit (n : N) : ascii :=
  nth (N.to_nat n) (list_ascii_of_string "0123456789ABCDEF") "0"%char.

Definition percent_octet (b : N) : string :=
  String "%" (String (hex_digit (b / 16)) (String (hex_digit (b mod 16)) "")).

Definition percent_escape (cp : N) : string :=
  String.concat "" (map percent_octet (utf8_octets cp)).

(** [encodeURIComponent s]; [None] is the [URIError] thrown at a surrogate
    that has no partner. *)
Fixpoint encodeURIComponent (s : jsstring) : option string :=
  match s with
  | [] => Some ""
  | c :: rest =>
    if uri_unreserved c then
      option_map (String (ascii_of_N c)) (encodeURIComponent rest)
    else if is_trail_surrogate c then None
    else if is_lead_surrogate c then
      match rest with
      | d :: rest' =>
        if is_trail_surrogate d then
          option_map (append (percent_escape (surrogate_pair c d)))
                     (encodeURIComponent rest')
        else None
      | [] => None
      end
    else option_map (append (percent_escape c)) (encodeURIComponent rest)
  end.

Definition URIError : Thrown := ErrorObj "URI malformed".

(** A call that returns [option] threw when it gave [None]. *)
Definition throws {A : Type} (r : option A) : bool :=
  match r with Some _ => false | None => true end.

(** [s.isWellFormed()]: no surrogate stands without its partner. *)
Fixpoint isWellFormed (s : jsstring) : bool :=
  match s with
  | [] => true
  | c :: rest =>
    if is_trail_surrogate c then false
    else if is_lead_surrogate c then
      match rest with
      | d :: rest' => is_trail_surrogate d && isWellFormed rest'
      | [] => false
      end
    else isWellFormed rest
  end.

(** A string of ASCII characters as code units, for writing inputs. *)
Definition js (s : string) : jsstring :=
  map N_of_ascii (list_ascii_of_string s).

(** *** Numbers

    The numbers of the components arrive in JSON bodies, as decimal
    literals: [mantissa / 10 ^ decimals].  [JSON.parse] reads a literal
    as the double nearest to it, and a template literal prints a double
    by [Number::toString]: its shortest digits that read back as the
    same double, in plain or in exponent form. *)
Record number : Type := { mantissa : Z; decimals : nat }.

Definition number_of_Z (z : Z) : number := {| mantissa := z; decimals := 0 |}.

(** The literal denotes the integer [n]; [136] and [136.0] denote 136. *)
Definition denotes (x : number) (n : Z) : Prop :=
  mantissa x = (n * 10 ^ Z.of_nat (decimals x))%Z.

(** Drop the trailing zeros of the fraction. *)
Fixpoint strip_zeros (m : Z) (d : nat) : Z * nat :=
  match d with
  | O => (m, O)
  | S d' => if (m mod 10 =? 0)%Z then strip_zeros (m / 10) d' else (m, d)
  end.

Definition Z_digits (z : Z) : string :=
  NilZero.string_of_uint (N.to_uint (Z.to_N z)).

Fixpoint zeros (k : nat) : string :=
  match k with O => "" | S k' => String "0" (zeros k') end.

Local Open Scope Z_scope.

(** [num / den * base ^ e], as a ratio. *)
Definition times_pow (base num den e : Z) : Z * Z :=
  if 0 <=? e then (num * base ^ e, den) else (num, den * base ^ (- e)).

(** The [b] with [2 ^ b <= num / den < 2 ^ (b + 1)]. *)
Definition floor_log2 (num den : Z) : Z :=
  let b := Z.log2 num - Z.log2 den in
  let '(n, d) := times_pow 2 num den (- b) in
  if d <=? n then b else b - 1.

(** The [n] with [10 ^ (n - 1) <= num / den < 10 ^ n]. *)
Definition decimal_exponent (num den : Z) : Z :=
  if den <=? num then Z.of_nat (String.length (Z_digits (num / den)))
  else
    let p := Z.of_nat (String.length (Z_digits (den / num))) in
    if num * 10 ^ (p - 1) =? den then 2 - p else 1 - p.

(** Round to the nearest integer, ties to even. *)
Definition round_half_even (num den : Z) : Z :=
  let f := num / den in
  let r := num mod den in
  if 2 * r <? den then f
  else if den <? 2 * r then f + 1
  else if Z.even f then f else f + 1.

(** The magnitude of a double: [f * 2 ^ e] with [f < 2 ^ 53]. *)
Inductive double : Type :=
| Zero
| Finite (f e : Z)
| Infinity.

(** The double nearest to [num / den], as [JSON.parse] reads a literal:
    53 bits from the leading one, or down to [2 ^ -1074] for the
    subnormal ones; beyond the largest double, infinity. *)
Definition to_double (num den : Z) : double :=
  let b := floor_log2 num den in
  let e := Z.max (b - 52) (-1074) in
  let '(n, d) := times_pow 2 num den (- e) in
  let f := round_half_even n d in
  if f =? 0 then Zero
  else
    let '(f', e') := if f =? 2 ^ 53 then (2 ^ 52, e + 1) else (f, e) in
    if 971 <? e' then Infinity else Finite f' e'.

(** [s * 10 ^ x] reads back as the double [f * 2 ^ e]: it lies between
    the midpoints to the neighbouring doubles, the midpoints themselves
    counting when [f] is even.  The comparison is made in quarters of the
    unit in the last place. *)
Definition reads_back (f e s x : Z) : bool :=
  let upper := 4 * f + 2 in
  let lower :=
      if (f =? 2 ^ 52) && (-1074 <? e) then 4 * f - 1 else 4 * f - 2 in
  let '(tn, td) := times_pow 10 s 1 x in
  let '(cn, cd) := times_pow 2 tn td (2 - e) in
  if Z.even f
  then (lower * cd <=? cn) && (cn <=? upper * cd)
  else (lower * cd <? cn) && (cn <? upper * cd).

(** The shortest digits [s], with their exponent [x], that read back as
    [f * 2 ^ e], tried from [k] digits on; of two candidates of one
    length, the nearer.  [n] is the decimal exponent of the double. *)
Fixpoint shortest_digits (fuel : nat) (k : Z) (f e n : Z) : Z * Z :=
  let x := n - k in
  let '(vn, vd) := times_pow 2 f 1 e in
  let '(sn, sd) := times_pow 10 vn vd (- x) in
  let below := sn / sd in
  let above := below + 1 in
  let r := sn mod sd in
  match fuel with
  | O => (below, x)
  | S fuel' =>
    match reads_back f e below x, reads_back f e above x with
    | true, true =>
      (if 2 * r <? sd then below
       else if sd <? 2 * r then above
       else if Z.even below then below else above, x)
    | true, false => (below, x)
    | false, true => (above, x)
    | false, false => shortest_digits fuel' (k + 1) f e n
    end
  end.

Fixpoint strip_trailing (fuel : nat) (s x : Z) : Z * Z :=
  match fuel with
  | O => (s, x)
  | S fuel' => if s mod 10 =? 0 then strip_trailing fuel' (s / 10) (x + 1)
               else (s, x)
  end.

(** The text of the digits [ds] with the decimal exponent [n], by the
    cases of [Number::toString]: digits and zeros, digits around a
    point, a zero and a point before the digits, or exponent form. *)
Definition format_digits (ds : string) (n : Z) : string :=
  let k := Z.of_nat (String.length ds) in
  if (k <=? n) && (n <=? 21) then (ds ++ zeros (Z.to_nat (n - k)))%string
  else if (0 <? n) && (n <=? 21)
  then (substring 0 (Z.to_nat n) ds ++ "."
        ++ substring (Z.to_nat n) (Z.to_nat (k - n)) ds)%string
  else if (-6 <? n) && (n <=? 0)
  then ("0." ++ zeros (Z.to_nat (- n)) ++ ds)%string
  else
    let e := n - 1 in
    let sign := if e <? 0 then "-" else "+" in
    let lead := if k =? 1 then ds
                else (substring 0 1 ds ++ "."
                      ++ substring 1 (Z.to_nat (k - 1)) ds)%string in
    (lead ++ "e" ++ sign ++ Z_digits (Z.abs e))%string.

Definition double_toString (d : double) : string :=
  match d with
  | Zero => "0"
  | Infinity => "Infinity"
  | Finite f e =>
    let '(vn, vd) := times_pow 2 f 1 e in
    let '(s, x) := shortest_digits 17 1 f e (decimal_exponent vn vd) in
    let '(s', x') := strip_trailing 17 s x in
    let ds := Z_digits s' in
    format_digits ds (x' + Z.of_nat (String.length ds))
  end.

(** The literal is zero, or so small that it is read as zero: at most
    half of the smallest double. *)
Definition rounds_to_zero (x : number) : bool :=
  (mantissa x =? 0)
  || (Z.abs (mantissa x) * 2 ^ 1075 <=? 10 ^ Z.of_nat (decimals x)).

(** The literal is an integer of magnitude below [2 ^ 53]: it is its own
    double, and its own shortest digits. *)
Definition safe_integer (x : number) : option Z :=
  match strip_zeros (mantissa x) (decimals x) with
  | (m, O) => if Z.abs m <? 2 ^ 53 then Some m else None
  | (_, S _) => None
  end.

(** [ToBoolean] on a number: zero is falsy. *)
Definition number_truthy (x : number) : bool := negb (rounds_to_zero x).

(** [ToString] on a number, as a template literal applies it. *)
Definition number_toString (x : number) : string :=
  let sign := if mantissa x <? 0 then "-" else "" in
  let magnitude :=
      match safe_integer x with
      | Some m => Z_digits (Z.abs m)
      | None => double_toString (to_double (Z.abs (mantissa x))
                                           (10 ^ Z.of_nat (decimals x)))
      end in
  if rounds_to_zero x then "0" else (sign ++ magnitude)%string.

Local Close Scope Z_scope.

(** ** Async functions

    An [async] function body is a tree: it returns, throws, performs a
    synchronous effect and goes on, or suspends at an [await] until the
    awaited promise settles.  [St] is the state of the component the
    function belongs to and [E X] the things it awaits with an answer in
    [X]. *)

(** What is visible from outside the component. *)
Inductive Event : Type :=
| DefaultPrevented
| Requested (url : string)
| ConsoleError (label : string) (err : Thrown).

Inductive Sync (St : Type) : Type :=
| SetState (update : St -> St)
| Emit (ev : Event).
Arguments SetState {St} update.
Arguments Emit {St} ev.

Inductive Async (St : Type) (E : Type -> Type) (R : Type) : Type :=
| Ret (r : R)
| Throw (err : Thrown)
| Do (s : Sync St) (k : Async St E R)
| Await (X : Type) (e : E X) (k : Settled X -> Async St E R).
Arguments Ret {St E R} r.
Arguments Throw {St E R} err.
Arguments Do {St E R} s k.
Arguments Await {St E R X} e k.

(** The component's state cells and the trace of its outside effects. *)
Record World (St : Type) : Type := { ui : St; trace : list Event }.
Arguments ui {St} w.
Arguments trace {St} w.
Arguments Build_World {St} ui trace.

Section AsyncFunctions.
Context {St : Type} {E : Type -> Type}.

Fixpoint bind {A B : Type} (m : Async St E A) (f : A -> Async St E B)
  : Async St E B :=
  match m with
  | Ret a => f a
  | Throw err => Throw err
  | Do s k => Do s (bind k f)
  | Await e k => Await e (fun o => bind (k o) f)
  end.

(** [try { body } catch (err) { handler err }] *)
Fixpoint try_catch {A : Type} (body : Async St E A)
         (handler : Thrown -> Async St E A) : Async St E A :=
  match body with
  | Ret a => Ret a
  | Throw err => handler err
  | Do s k => Do s (try_catch k handler)
  | Await e k => Await e (fun o => try_catch (k o) handler)
  end.

(** [try { body } finally { fin }]: [fin] runs on both ways out. *)
Fixpoint finally {A : Type} (body : Async St E A) (fin : Async St E unit)
  : Async St E A :=
  match body with
  | Ret a => bind fin (fun _ => Ret a)
  | Throw err => bind fin (fun _ => Throw err)
  | Do s k => Do s (finally k fin)
  | Await e k => Await e (fun o => finally (k o) fin)
  end.

(** [await e]: the value of a fulfilled promise, or its reason thrown. *)
Definition await {X : Type} (e : E X) : Async St E X :=
  Await e (fun o =>
    match o with Fulfilled x => Ret x | Rejected err => Throw err end).

Definition set_state (f : St -> St) : Async St E unit :=
  Do (SetState f) (Ret tt).

Definition emit (ev : Event) : Async St E unit := Do (Emit ev) (Ret tt).

Definition exec (s : Sync St) (w : World St) : World St :=
  match s with
  | SetState f => {| ui := f (ui w); trace := trace w |}
  | Emit ev => {| ui := ui w; trace := trace w ++ [ev] |}
  end.

(** Where a synchronous stretch of an async function ends. *)
Inductive Paused (R : Type) : Type :=
| Finished (result : Settled R)
| Suspended (X : Type) (e : E X) (k : Settled X -> Async St E R).
Arguments Finished {R} result.
Arguments Suspended {R X} e k.

(** Run up to the next [await].  The setters called on the way are
    applied together: React renders once the stretch is over. *)
Fixpoint run_sync {R : Type} (p : Async St E R) (w : World St)
  : World St * Paused R :=
  match p with
  | Ret r => (w, Finished (Fulfilled r))
  | Throw err => (w, Finished (Rejected err))
  | Do s k => run_sync k (exec s w)
  | Await e k => (w, Suspended e k)
  end.

(** Run to the end, with [env] telling how each awaited promise
    settles. *)
Fixpoint run {R : Type} (env : forall X, E X -> Settled X)
         (p : Async St E R) (w : World St) : World St * Settled R :=
  match p with
  | Ret r => (w, Fulfilled r)
  | Throw err => (w, Rejected err)
  | Do s k => run env k (exec s w)
  | Await e k => run env (k (env _ e)) w
  end.

(** A suspended call: what it awaits and how it goes on. *)
Inductive Task : Type :=
| Waiting (X : Type) (e : E X) (k : Settled X -> Async St E unit).
Arguments Waiting {X} e k.

(** The component with the calls that are in flight. *)
Record Config : Type := { world : World St; pending : list Task }.

(** Enter (or re-enter) an async function and run its next synchronous
    stretch. *)
Definition advance (p : Async St E unit) (w : World St) (others : list Task)
  : Config :=
  match run_sync p w with
  | (w', Finished _) => {| world := w'; pending := others |}
  | (w', Suspended e k) => {| world := w'; pending := others ++ [Waiting e k] |}
  end.

(** The oldest waiting call gets its answer from [env]. *)
Definition settle_first (env : forall X, E X -> Settled X) (c : Config)
  : Config :=
  match pending c with
  | Waiting e k :: others => advance (k (env _ e)) (world c) others
  | [] => c
  end.

End AsyncFunctions.
Arguments Task : clear implicits.
Arguments Config : clear implicits.
Arguments Waiting {St E X} e k.
Arguments Finished {St E R} result.
Arguments Suspended {St E R X} e k.

Notation "x <- m ;; k" := (bind m (fun x => k))
  (at level 61, m at next level, right associativity).
Notation "m ;; k" := (bind m (fun _ => k))
  (at level 61, right associativity).

(** *** Calls in flight *)

Section Scheduling.
Context {St : Type} {E : Type -> Type}.

(** Take the [n]-th waiting call out of the list. *)
Fixpoint take_task (n : nat) (l : list (Task St E))
  : option (Task St E * list (Task St E)) :=
  match l with
  | [] => None
  | t :: rest =>
    match n with
    | O => Some (t, rest)
    | S n' =>
      match take_task n' rest with
      | Some (x, others) => Some (x, t :: others)
      | None => None
      end
    end
  end.

(** The [n]-th waiting call gets its answer from [env]; the promises of
    the calls in flight settle in any order. *)
Definition settle_at (n : nat) (env : forall X, E X -> Settled X)
           (c : Config St E) : Config St E :=
  match take_task n (pending c) with
  | Some (Waiting e k, others) => advance (k (env _ e)) (world c) others
  | None => c
  end.

(** Run to the end while other things happen: at every [await], before
    the call goes on, [between] does to the world what the other calls
    and the user did meanwhile. *)
Fixpoint run_among {R : Type} (env : forall X, E X -> Settled X)
         (between : forall X, E X -> World St -> World St)
         (p : Async St E R) (w : World St) : World St * Settled R :=
  match p with
  | Ret r => (w, Fulfilled r)
  | Throw err => (w, Rejected err)
  | Do s k => run_among env between k (exec s w)
  | Await e k => run_among env between (k (env _ e)) (between _ e w)
  end.

(** Nothing else happens. *)
Definition undisturbed : forall X, E X -> World St -> World St :=
  fun _ _ w => w.

End Scheduling.

(** The characters of an encoded URI component: the unreserved ones, and
    the percent sign with the sixteen hexadecimal digits of an escape. *)
Definition component_char (a : ascii) : bool :=
  uri_unreserved (N_of_ascii a)
  || Ascii.eqb a "%"
  || existsb (Ascii.eqb a) (list_ascii_of_string "0123456789ABCDEF").

Fixpoint all_chars (p : ascii -> bool) (s : string) : bool :=
  match s with
  | EmptyString => true
  | String a rest => p a && all_chars p rest
  end.

(** The requests and the console lines of a trace. *)
Definition requests (t : list Event) : list string :=
  flat_map (fun ev => match ev with Requested u => [u] | _ => [] end) t.

Definition console (t : list Event) : list (string * Thrown) :=
  flat_map (fun ev =>
    match ev with ConsoleError l err => [(l, err)] | _ => [] end) t.

(** [process.env.NEXT_PUBLIC_TMDB_API_KEY] inside a template literal. *)
Definition template_env (v : option string) : string :=
  match v with Some s => s | None => "undefined" end.

(** ** The search screen, [src/app/page.tsx] *)

Module Search.

(** [interface Movie] *)
Record Movie : Type := {
  id : Z;
  title : string;
  release_date : string;
  poster_path : option string
}.

(** The body of the search endpoint, [{ results: Movie[] }]; the handler
    reads [data.results] and allows for its absence. *)
Record SearchData : Type := { results : option (list Movie) }.

Record Response : Type := { status : N }.

(** The three [useState] cells of [Home]. *)
Record State : Type := {
  query : jsstring;
  movies : list Movie;
  loading : bool
}.

Definition initial : State := {| query := []; movies := []; loading := false |}.

(** What [handleSearch] awaits. *)
Inductive Awaited : Type -> Type :=
| FetchResponse (url : string) : Awaited Response
| ResponseJson (r : Response) : Awaited SearchData.

Definition Handler := Async State Awaited.

Definition setQuery (q : jsstring) : Handler unit :=
  set_state (fun s => {| query := q; movies := movies s; loading := loading s |}).

Definition setMovies (l : list Movie) : Handler unit :=
  set_state (fun s => {| query := query s; movies := l; loading := loading s |}).

Definition setLoading (b : bool) : Handler unit :=
  set_state (fun s => {| query := query s; movies := movies s; loading := b |}).

(** [fetch(url)] sends the request; awaiting it gives the response. *)
Definition fetch (url : string) : Handler Response :=
  emit (Requested url) ;; await (FetchResponse url).

Definition json (r : Response) : Handler SearchData := await (ResponseJson r).

Definition search_url (apiKey : option string) (encoded : string) : string :=
  "https://api.themoviedb.org/3/search/movie?api_key=" ++ template_env apiKey
  ++ "&query=" ++ encoded.

Arguments search_url : simpl never.

(** [data.results || []]; an array, also an empty one, is truthy. *)
Definition results_or_empty (data : SearchData) : list Movie :=
  match results data with Some l => l | None => [] end.

(** [handleSearch], lines 22-43.  [query] is the state cell as the render
    that created the handler saw it; [apiKey] is the module constant read
    from the environment. *)
Definition handleSearch (apiKey : option string) (query : jsstring)
  : Handler unit :=
  emit DefaultPrevented ;;
  if negb (jsstring_truthy query) then Ret tt
  else
    setLoading true ;;
    setMovies [] ;;
    finally
      (try_catch
         (encoded <- match encodeURIComponent query with
                     | Some s => Ret s
                     | None => Throw URIError
                     end ;;
          response <- fetch (search_url apiKey encoded) ;;
          data <- json response ;;
          setMovies (results_or_empty data))
         (fun error =>
            emit (ConsoleError "Error searching movies:" error) ;;
            setMovies []))
      (setLoading false).

(** *** The markup of [Home] *)

Record Card : Type := {
  href : string;
  poster : option string;
  heading : string;
  year : option string
}.

Record View : Type := {
  input_value : jsstring;
  button : string;
  skeleton : bool;
  grid : option (list Card);
  no_results : bool
}.

Definition card (m : Movie) : Card :=
  {| href := "/movie/" ++ number_toString (number_of_Z (id m));
     poster := option_map (append "https://image.tmdb.org/t/p/w500")
                          (match poster_path m with
                           | Some p => if string_truthy p then Some p else None
                           | None => None
                           end);
     heading := title m;
     year := if string_truthy (release_date m)
             then Some (substring 0 4 (release_date m)) else None |}.

(** The [return] of [Home], lines 45-173. *)
Definition render (s : State) : View :=
  {| input_value := query s;
     button := if loading s then "Searching..." else "Search";
     skeleton := loading s;
     grid := if negb (loading s) && (0 <? length (movies s))%nat
             then Some (map card (movies s)) else None;
     no_results := negb (loading s) && jsstring_truthy (query s)
                   && (length (movies s) =? 0)%nat |}.

(** *** The screen over time *)

(** One submission run to its end, the network answering by [env]. *)
Definition submit (apiKey : option string) (env : forall X, Awaited X -> Settled X)
           (w : World State) : World State :=
  fst (run env (handleSearch apiKey (query (ui w))) w).

Definition initial_config : Config State Awaited :=
  {| world := {| ui := initial; trace := [] |}; pending := [] |}.

(** What can happen to the screen: the user edits the text, the user
    submits the form, or a promise some call is waiting for settles. *)
Inductive step (apiKey : option string)
  : Config State Awaited -> Config State Awaited -> Prop :=
| step_change (c : Config State Awaited) (text : jsstring) :
    step apiKey c (advance (setQuery text) (world c) (pending c))
| step_submit (c : Config State Awaited) :
    step apiKey c
         (advance (handleSearch apiKey (query (ui (world c))))
                  (world c) (pending c))
| step_settle (c : Config State Awaited) (before after : list (Task State Awaited))
              (X : Type) (e : Awaited X) (k : Settled X -> Handler unit)
              (o : Settled X) :
    pending c = (before ++ Waiting e k :: after)%list ->
    step apiKey c (advance (k o) (world c) (before ++ after)%list).

Inductive reachable (apiKey : option string) : Config State Awaited -> Prop :=
| reach_initial : reachable apiKey initial_config
| reach_step (c c' : Config State Awaited) :
    reachable apiKey c -> step apiKey c c' -> reachable apiKey c'.

(** The result list is empty whenever the loading flag is up. *)
Definition calm (s : State) : Prop := loading s = true -> movies s = [].

(** A synchronous stretch keeps the screen calm. *)
Definition stretch_calm (p : Handler unit) : Prop :=
  forall w : World State, calm (ui w) -> calm (ui (fst (run_sync p w))).

(** However the promises it awaits settle, every later stretch of [p]
    keeps the screen calm. *)
Fixpoint resumes_calmly (p : Handler unit) : Prop :=
  match p with
  | Ret _ | Throw _ => True
  | Do _ k => resumes_calmly k
  | Await _ k => forall o, stretch_calm (k o) /\ resumes_calmly (k o)
  end.

Definition task_calm (t : Task State Awaited) : Prop :=
  match t with
  | Waiting _ k => forall o, stretch_calm (k o) /\ resumes_calmly (k o)
  end.

(** Settles [stretch_calm] for a stretch that is written out. *)
Ltac calm_stretch :=
  unfold stretch_calm, calm; intros; cbn in *; auto; try discriminate.

(** A stretch that ends its call ends it with the loading flag down. *)
Definition ends_idle (p : Handler unit) : Prop :=
  forall w : World State,
    match snd (run_sync p w) with
    | Finished _ => loading (ui (fst (run_sync p w))) = false
    | Suspended _ _ => True
    end.

Fixpoint resumes_idle (p : Handler unit) : Prop :=
  match p with
  | Ret _ | Throw _ => True
  | Do _ k => resumes_idle k
  | Await _ k => forall o, ends_idle (k o) /\ resumes_idle (k o)
  end.

Definition task_idle (t : Task State Awaited) : Prop :=
  match t with
  | Waiting _ k => forall o, ends_idle (k o) /\ resumes_idle (k o)
  end.

End Search.

(** ** The detail screen, [MovieDetailPage] *)

Module Detail.

(** [interface MovieDetail] *)
Record Genre : Type := { genre_id : Z; genre_name : string }.

Record MovieDetail : Type := {
  id : Z;
  title : string;
  overview : string;
  release_date : string;
  poster_path : option string;
  backdrop_path : option string;
  genres : list Genre;
  runtime : number;
  vote_average : number
}.

(** [interface Credits] *)
Record CastMember : Type := {
  cast_id : Z;
  character : string;
  name : string;
  profile_path : option string
}.

Record Credits : Type := { cast : list CastMember }.

Record Response : Type := { status : N }.

(** [Response.ok]: the status is in the range 200-299. *)
Definition ok (r : Response) : bool := in_range 200 299 (status r).

(** The four [useState] cells of [MovieDetailPage], lines 38-41. *)
Record State : Type := {
  movie : option MovieDetail;
  credits : option Credits;
  loading : bool;
  error : option string
}.

Definition initial : State :=
  {| movie := None; credits := None; loading := true; error := None |}.

(** What [fetchMovieDetail] awaits: the two responses joined by
    [Promise.all], and the two bodies.  A body parses to a record or to
    [null], which is [None]. *)
Inductive Awaited : Type -> Type :=
| BothResponses (movieUrl creditsUrl : string) : Awaited (Response * Response)
| MovieJson (r : Response) : Awaited (option MovieDetail)
| CreditsJson (r : Response) : Awaited (option Credits).

Definition Effect := Async State Awaited.

Definition setMovie (m : option MovieDetail) : Effect unit :=
  set_state (fun s => {| movie := m; credits := credits s;
                         loading := loading s; error := error s |}).

Definition setCredits (c : option Credits) : Effect unit :=
  set_state (fun s => {| movie := movie s; credits := c;
                         loading := loading s; error := error s |}).

Definition setLoading (b : bool) : Effect unit :=
  set_state (fun s => {| movie := movie s; credits := credits s;
                         loading := b; error := error s |}).

Definition setError (e : option string) : Effect unit :=
  set_state (fun s => {| movie := movie s; credits := credits s;
                         loading := loading s; error := e |}).

Definition movie_url (apiKey : option string) (id : string) : string :=
  "https://api.themoviedb.org/3/movie/" ++ id ++ "?api_key="
  ++ template_env apiKey ++ "&language=en-US".

Definition credits_url (apiKey : option string) (id : string) : string :=
  "https://api.themoviedb.org/3/movie/" ++ id ++ "/credits?api_key="
  ++ template_env apiKey ++ "&language=en-US".

Arguments movie_url : simpl never.
Arguments credits_url : simpl never.

(** [err instanceof Error ? err.message : "An unexpected error occurred."] *)
Definition error_text (err : Thrown) : string :=
  match err with
  | ErrorObj message => message
  | NotAnError _ => "An unexpected error occurred."
  end.

(** [fetchMovieDetail], lines 46-81.  Both requests are sent before the
    function suspends on [Promise.all]. *)
Definition fetchMovieDetail (apiKey : option string) (id : string)
  : Effect unit :=
  setLoading true ;;
  setError None ;;
  finally
    (try_catch
       (emit (Requested (movie_url apiKey id)) ;;
        emit (Requested (credits_url apiKey id)) ;;
        both <- await (BothResponses (movie_url apiKey id)
                                     (credits_url apiKey id)) ;;
        let '(movieRes, creditsRes) := both in
        if negb (ok movieRes)
        then Throw (ErrorObj "Failed to fetch movie details.")
        else
          if negb (ok creditsRes)
          then Throw (ErrorObj "Failed to fetch credits.")
          else
            movieData <- await (MovieJson movieRes) ;;
            creditsData <- await (CreditsJson creditsRes) ;;
            setMovie movieData ;;
            setCredits creditsData)
       (fun err =>
          emit (ConsoleError "Error fetching movie details:" err) ;;
          setError (Some (error_text err))))
    (setLoading false).

(** The callback of [useEffect], lines 43-84: nothing without an [id]. *)
Definition effect (apiKey : option string) (id : option string) : Effect unit :=
  match id with
  | None => Ret tt
  | Some i => if negb (string_truthy i) then Ret tt
              else fetchMovieDetail apiKey i
  end.

(** *** The markup of [MovieDetailPage] *)

Inductive Nav : Type :=
| RouterBack
| LinkTo (href : string).

Record CastCard : Type := {
  photo : option string;
  performer : string;
  role : string
}.

Record Markup : Type := {
  page_title : string;
  description : string;
  og_image : option string;
  backdrop : option string;
  back_link : Nav;
  poster : option string;
  heading : string;
  overview_text : string;
  release_text : string;
  runtime_text : string;
  genre_chips : option (list string);
  rating_text : string;
  cast_section : option (list CastCard)
}.

Inductive View : Type :=
| Spinner
| ErrorScreen (message : string) (button_label : string) (on_click : Nav)
| Nothing
| DetailScreen (d : Markup).

(** A path field that is [null] or empty is falsy. *)
Definition path_src (base : string) (path : option string) : option string :=
  match path with
  | Some p => if string_truthy p then Some (base ++ p) else None
  | None => None
  end.

Definition cast_card (member : CastMember) : CastCard :=
  {| photo := path_src "https://image.tmdb.org/t/p/w200" (profile_path member);
     performer := name member;
     role := "as " ++ character member |}.

(** The last [return], lines 119-302. *)
Definition detail_markup (movie : MovieDetail) (credits : option Credits)
  : Markup :=
  {| page_title := title movie ++ " - Movie Details";
     description := overview movie;
     og_image := path_src "https://image.tmdb.org/t/p/original"
                          (backdrop_path movie);
     backdrop := path_src "https://image.tmdb.org/t/p/original"
                          (backdrop_path movie);
     back_link := LinkTo "/";
     poster := path_src "https://image.tmdb.org/t/p/w500" (poster_path movie);
     heading := title movie;
     overview_text := string_or (overview movie) "No description available.";
     release_text := string_or (release_date movie) "N/A";
     runtime_text := if number_truthy (runtime movie)
                     then number_toString (runtime movie) ++ " minutes"
                     else "N/A";
     genre_chips := if (0 <? length (genres movie))%nat
                    then Some (map genre_name (genres movie)) else None;
     rating_text := if number_truthy (vote_average movie)
                    then number_toString (vote_average movie) ++ "/10"
                    else "N/A";
     cast_section :=
       match credits with
       | Some c => if (0 <? length (cast c))%nat
                   then Some (map cast_card (firstn 10 (cast c)))
                   else None
       | None => None
       end |}.

(** [if (error)]: [null] and the empty string are falsy. *)
Definition error_shown (e : option string) : option string :=
  match e with
  | Some msg => if string_truthy msg then Some msg else None
  | None => None
  end.

(** The body of [MovieDetailPage] after the hooks, lines 86-302. *)
Definition render (s : State) : View :=
  if loading s then Spinner
  else
    match error_shown (error s) with
    | Some msg => ErrorScreen msg "Go Back" RouterBack
    | None =>
      match movie s with
      | None => Nothing
      | Some m => DetailScreen (detail_markup m (credits s))
      end
    end.

(** The network answers both requests of [id] with a successful status and
    the bodies parse, to [mb] and [cb]. *)
Definition both_parse (apiKey : option string) (id : string)
           (env : forall X, Awaited X -> Settled X)
           (mb : option MovieDetail) (cb : option Credits) : Prop :=
  exists movieRes creditsRes : Response,
    env _ (BothResponses (movie_url apiKey id) (credits_url apiKey id))
    = Fulfilled (movieRes, creditsRes)
    /\ ok movieRes = true /\ ok creditsRes = true
    /\ env _ (MovieJson movieRes) = Fulfilled mb
    /\ env _ (CreditsJson creditsRes) = Fulfilled cb.

(** The network answers both requests of [id] with a successful status and
    the bodies parse to [m] and [c]. *)
Definition both_succeed (apiKey : option string) (id : string)
           (env : forall X, Awaited X -> Settled X)
           (m : MovieDetail) (c : Credits) : Prop :=
  exists movieRes creditsRes : Response,
    env _ (BothResponses (movie_url apiKey id) (credits_url apiKey id))
    = Fulfilled (movieRes, creditsRes)
    /\ ok movieRes = true /\ ok creditsRes = true
    /\ env _ (MovieJson movieRes) = Fulfilled (Some m)
    /\ env _ (CreditsJson creditsRes) = Fulfilled (Some c).

(** The run for [id] fails with [err]: [Promise.all] rejects, a status is
    not successful, or a body does not parse. *)
Definition fails (apiKey : option string) (id : string)
           (env : forall X, Awaited X -> Settled X) (err : Thrown) : Prop :=
  env _ (BothResponses (movie_url apiKey id) (credits_url apiKey id))
  = Rejected err
  \/ (exists movieRes creditsRes : Response,
        env _ (BothResponses (movie_url apiKey id) (credits_url apiKey id))
        = Fulfilled (movieRes, creditsRes)
        /\ ((ok movieRes = false
             /\ err = ErrorObj "Failed to fetch movie details.")
            \/ (ok movieRes = true /\ ok creditsRes = false
                /\ err = ErrorObj "Failed to fetch credits.")
            \/ (ok movieRes = true /\ ok creditsRes = true
                /\ (env _ (MovieJson movieRes) = Rejected err
                    \/ (exists mb,
                          env _ (MovieJson movieRes) = Fulfilled mb
                          /\ env _ (CreditsJson creditsRes) = Rejected err))))).

(** The rendering policy as the specification tabulates it: the condition
    of each of its four states, and what each renders. *)
Inductive PolicyState : Type := Loading | Error | Empty | Ready.

Definition policy_condition (p : PolicyState) (s : State) : Prop :=
  match p with
  | Loading => loading s = true
  | Error => loading s = false /\ error s <> None
  | Empty => loading s = false /\ error s = None /\ movie s = None
  | Ready => loading s = false /\ movie s <> None
  end.

Definition policy_view (p : PolicyState) (s : State) (v : View) : Prop :=
  match p with
  | Loading => v = Spinner
  | Error => exists msg, error s = Some msg
                         /\ v = ErrorScreen msg "Go Back" RouterBack
  | Empty => v = Nothing
  | Ready => exists m, movie s = Some m
                       /\ v = DetailScreen (detail_markup m (credits s))
  end.

(** The conditions under which [render] takes each of its four returns:
    the tests are made in order, and [if (error)] passes over an empty
    message as it does over [null]. *)
Definition render_condition (p : PolicyState) (s : State) : Prop :=
  match p with
  | Loading => loading s = true
  | Error => loading s = false /\ error_shown (error s) <> None
  | Empty => loading s = false /\ error_shown (error s) = None
             /\ movie s = None
  | Ready => loading s = false /\ error_shown (error s) = None
             /\ movie s <> None
  end.

(** The screen is in its Ready state, showing [m]. *)
Definition ready (s : State) (m : MovieDetail) : Prop :=
  loading s = false /\ error_shown (error s) = None /\ movie s = Some m.

(** One run of the effect to its end, the network answering by [env]. *)
Definition trigger (apiKey : option string) (id : option string)
           (env : forall X, Awaited X -> Settled X) (w : World State)
  : World State :=
  fst (run env (effect apiKey id) w).

(** The component as it mounts. *)
Definition mounted : World State := {| ui := initial; trace := [] |}.

(** *** The screen over time *)

Definition initial_config : Config State Awaited :=
  {| world := mounted; pending := [] |}.

(** What can happen to the screen: the effect runs, for the identifier of
    the route as it is then, or a promise some run is waiting for
    settles.  There is no cleanup: a run that was started goes on. *)
Inductive step (apiKey : option string)
  : Config State Awaited -> Config State Awaited -> Prop :=
| step_effect (c : Config State Awaited) (id : option string) :
    step apiKey c (advance (effect apiKey id) (world c) (pending c))
| step_settle (c : Config State Awaited) (before after : list (Task State Awaited))
              (X : Type) (e : Awaited X) (k : Settled X -> Effect unit)
              (o : Settled X) :
    pending c = (before ++ Waiting e k :: after)%list ->
    step apiKey c (advance (k o) (world c) (before ++ after)%list).

Inductive reachable (apiKey : option string) : Config State Awaited -> Prop :=
| reach_initial : reachable apiKey initial_config
| reach_step (c c' : Config State Awaited) :
    reachable apiKey c -> step apiKey c c' -> reachable apiKey c'.

End Detail.

(** ** Sample data *)

Module Sample.

Definition matrix : Detail.MovieDetail :=
  {| Detail.id := 603;
     Detail.title := "The Matrix";
     Detail.overview := "A hacker learns what the world is.";
     Detail.release_date := "1999-03-31";
     Detail.poster_path := Some "/a.jpg";
     Detail.backdrop_path := None;
     Detail.genres := [ {| Detail.genre_id := 28; Detail.genre_name := "Action" |} ];
     Detail.runtime := number_of_Z 136;
     Detail.vote_average := {| mantissa := 82; decimals := 1 |} |}.

Definition neo : Detail.CastMember :=
  {| Detail.cast_id := 34; Detail.character := "Neo";
     Detail.name := "Keanu Reeves"; Detail.profile_path := None |}.

Definition matrix_credits : Detail.Credits := {| Detail.cast := [neo] |}.

Definition r200 : Detail.Response := {| Detail.status := 200 |}.
Definition r404 : Detail.Response := {| Detail.status := 404 |}.

(** A network on which both detail requests come back with the given
    statuses and the bodies above. *)
Definition detail_network (movieStatus creditsStatus : N)
  : forall X, Detail.Awaited X -> Settled X :=
  fun X e =>
    match e in Detail.Awaited T return Settled T with
    | Detail.BothResponses _ _ =>
      Fulfilled ({| Detail.status := movieStatus |},
                 {| Detail.status := creditsStatus |})
    | Detail.MovieJson _ => Fulfilled (Some matrix)
    | Detail.CreditsJson _ => Fulfilled (Some matrix_credits)
    end.

(** A later state of the provider: the same movie with other fields, and
    an empty cast. *)
Definition matrix_recut : Detail.MovieDetail :=
  {| Detail.id := 603;
     Detail.title := "The Matrix";
     Detail.overview := "";
     Detail.release_date := "1999-03-31";
     Detail.poster_path := None;
     Detail.backdrop_path := Some "/b.jpg";
     Detail.genres := [];
     Detail.runtime := number_of_Z 0;
     Detail.vote_average := number_of_Z 0 |}.

Definition no_credits : Detail.Credits := {| Detail.cast := [] |}.

Definition second_network : forall X, Detail.Awaited X -> Settled X :=
  fun X e =>
    match e in Detail.Awaited T return Settled T with
    | Detail.BothResponses _ _ => Fulfilled (r200, r200)
    | Detail.MovieJson _ => Fulfilled (Some matrix_recut)
    | Detail.CreditsJson _ => Fulfilled (Some no_credits)
    end.

(** A cast of twelve. *)
Definition crowd : list Detail.CastMember :=
  map (fun i => {| Detail.cast_id := Z.of_nat i; Detail.character := "Agent";
                   Detail.name := "Extra"; Detail.profile_path := None |})
      (seq 1 12).

Definition crowded : Detail.State :=
  {| Detail.movie := Some matrix_recut;
     Detail.credits := Some {| Detail.cast := crowd |};
     Detail.loading := false;
     Detail.error := None |}.

(** The two results of the search scenario of the specification. *)
Definition the_matrix : Search.Movie :=
  {| Search.id := 1; Search.title := "The Matrix";
     Search.release_date := "1999-03-31"; Search.poster_path := Some "/a.jpg" |}.

Definition matrix_reloaded : Search.Movie :=
  {| Search.id := 2; Search.title := "Matrix Reloaded";
     Search.release_date := "2003-05-07"; Search.poster_path := None |}.

Definition found : Search.SearchData :=
  {| Search.results := Some [the_matrix; matrix_reloaded] |}.

Definition s200 : Search.Response := {| Search.status := 200 |}.

(** The provider answers every search with the two results. *)
Definition search_network : forall X, Search.Awaited X -> Settled X :=
  fun X e =>
    match e in Search.Awaited T return Settled T with
    | Search.FetchResponse _ => Fulfilled s200
    | Search.ResponseJson _ => Fulfilled found
    end.

(** The request does not go through. *)
Definition offline : Thrown := ErrorObj "Failed to fetch".

Definition offline_network : forall X, Search.Awaited X -> Settled X :=
  fun X e =>
    match e in Search.Awaited T return Settled T with
    | Search.FetchResponse _ => Rejected offline
    | Search.ResponseJson _ => Fulfilled found
    end.

(** The search screen with a text typed in. *)
Definition typed (text : jsstring) : World Search.State :=
  {| ui := {| Search.query := text; Search.movies := [];
              Search.loading := false |};
     trace := [] |}.

(** The screen after "Matrix" was typed and submitted, the response not
    yet there. *)
Definition searching : Config Search.State Search.Awaited :=
  advance (Search.handleSearch None (js "Matrix")) (typed (js "Matrix")) [].

(** The same screen once the response and then its body have arrived. *)
Definition answered : Config Search.State Search.Awaited :=
  settle_first search_network (settle_first search_network searching).

(** The provider answers every search with a body without [results]. *)
Definition nothing_found : Search.SearchData := {| Search.results := None |}.

Definition empty_network : forall X, Search.Awaited X -> Settled X :=
  fun X e =>
    match e in Search.Awaited T return Settled T with
    | Search.FetchResponse _ => Fulfilled s200
    | Search.ResponseJson _ => Fulfilled nothing_found
    end.

(** Both detail requests come back with status 200; the movie body is
    [null]. *)
Definition null_movie_network : forall X, Detail.Awaited X -> Settled X :=
  fun X e =>
    match e in Detail.Awaited T return Settled T with
    | Detail.BothResponses _ _ => Fulfilled (r200, r200)
    | Detail.MovieJson _ => Fulfilled None
    | Detail.CreditsJson _ => Fulfilled (Some matrix_credits)
    end.

(** The first movie with its runtime received as [136.0]. *)
Definition matrix_decimal : Detail.MovieDetail :=
  {| Detail.id := 603;
     Detail.title := "The Matrix";
     Detail.overview := "A hacker learns what the world is.";
     Detail.release_date := "1999-03-31";
     Detail.poster_path := Some "/a.jpg";
     Detail.backdrop_path := None;
     Detail.genres := [];
     Detail.runtime := {| mantissa := 1360; decimals := 1 |};
     Detail.vote_average := {| mantissa := 82; decimals := 1 |} |}.

(** A movie whose runtime is ten to the twenty-first minutes. *)
Definition endless : Detail.MovieDetail :=
  {| Detail.id := 1;
     Detail.title := "Endless";
     Detail.overview := "";
     Detail.release_date := "";
     Detail.poster_path := None;
     Detail.backdrop_path := None;
     Detail.genres := [];
     Detail.runtime := number_of_Z (10 ^ 21);
     Detail.vote_average := number_of_Z 0 |}.

(** Both detail requests fail in transport: [Promise.all] rejects. *)
Definition unreachable_network (reason : Thrown)
  : forall X, Detail.Awaited X -> Settled X :=
  fun X e =>
    match e in Detail.Awaited T return Settled T with
    | Detail.BothResponses _ _ => Rejected reason
    | Detail.MovieJson _ => Fulfilled (Some matrix)
    | Detail.CreditsJson _ => Fulfilled (Some matrix_credits)
    end.

End Sample.

(** ** Properties of the encoder *)

Lemma unreserved_below_surrogates (c : code_unit) :
  uri_unreserved c = true ->
  is_trail_surrogate c = false /\ is_lead_surrogate c = false.
Proof.
  unfold uri_unreserved, is_trail_surrogate, is_lead_surrogate, in_range.
  cbn [existsb]. intros H.
  assert (Hc : (c <= 126)%N).
  { rewrite ?orb_true_iff, ?andb_true_iff, ?N.leb_le, ?N.eqb_eq in H.
    intuition (try discriminate; lia). }
  split; apply andb_false_iff; left; apply N.leb_gt; lia.
Qed.

Lemma throws_option_map {A B : Type} (f : A -> B) (r : option A) :
  throws (option_map f r) = throws r.
Proof. destruct r; reflexivity. Qed.

(** [encodeURIComponent] throws exactly on the strings that are not well
    formed. *)
Lemma encodeURIComponent_throws (s : jsstring) :
  throws (encodeURIComponent s) = negb (isWellFormed s).
Proof.
  assert (H : forall n s', (length s' <= n)%nat ->
              throws (encodeURIComponent s') = negb (isWellFormed s')).
  { induction n as [|n IH]; intros [|c rest] Hlen; try reflexivity.
    - cbn in Hlen. lia.
    - cbn in Hlen. cbn [encodeURIComponent isWellFormed].
      destruct (uri_unreserved c) eqn:Hu.
      + destruct (unreserved_below_surrogates c Hu) as [Ht Hl].
        rewrite Ht, Hl, throws_option_map. apply IH. lia.
      + destruct (is_trail_surrogate c); [reflexivity |].
        destruct (is_lead_surrogate c).
        * destruct rest as [|d rest']; [reflexivity |].
          destruct (is_trail_surrogate d); [| reflexivity].
          rewrite throws_option_map. cbn [andb]. apply IH. cbn in Hlen. lia.
        * rewrite throws_option_map. apply IH. lia. }
  apply (H (length s)). apply le_n.
Qed.

Lemma well_formed_encodes (s : jsstring) :
  isWellFormed s = true -> exists encoded, encodeURIComponent s = Some encoded.
Proof.
  intros H. pose proof (encodeURIComponent_throws s) as Ht.
  rewrite H in Ht. destruct (encodeURIComponent s) as [e|]; [| discriminate Ht].
  exists e. reflexivity.
Qed.

(** ** Properties of the numbers *)

Lemma zero_is_falsy (x : number) :
  mantissa x = 0%Z -> number_truthy x = false.
Proof.
  intros H. unfold number_truthy, rounds_to_zero. rewrite H. reflexivity.
Qed.

Lemma strip_zeros_integer (n : Z) (d : nat) :
  strip_zeros (n * 10 ^ Z.of_nat d) d = (n, O).
Proof.
  induction d as [|d IH].
  - cbn [strip_zeros]. rewrite Z.pow_0_r, Z.mul_1_r. reflexivity.
  - cbn [strip_zeros]. rewrite Nat2Z.inj_succ, Z.pow_succ_r by lia.
    replace (n * (10 * 10 ^ Z.of_nat d))%Z
      with (n * 10 ^ Z.of_nat d * 10)%Z by ring.
    rewrite Z_mod_mult, Z_div_mult by lia. cbn [Z.eqb]. exact IH.
Qed.

Lemma far_from_zero (m : Z) (d : nat) :
  (m <> 0)%Z ->
  (Z.abs (m * 10 ^ Z.of_nat d) * 2 ^ 1075 <=? 10 ^ Z.of_nat d)%Z = false.
Proof.
  intros Hm. apply Z.leb_gt.
  assert (Hp : (0 < 10 ^ Z.of_nat d)%Z) by (apply Z.pow_pos_nonneg; lia).
  assert (Hq : (1 < 2 ^ 1075)%Z) by (apply Z.pow_gt_1; lia).
  rewrite Z.abs_mul, (Z.abs_eq (10 ^ Z.of_nat d)) by lia.
  assert (Ha : (1 <= Z.abs m)%Z) by lia.
  generalize dependent (10 ^ Z.of_nat d)%Z. intros p Hp.
  generalize dependent (2 ^ 1075)%Z. intros q Hq.
  generalize dependent (Z.abs m). intros a Ha.
  assert (H1 : (p * 1 < p * q)%Z) by (apply Z.mul_lt_mono_pos_l; lia).
  assert (H2 : (1 * (p * q) <= a * (p * q))%Z)
    by (apply Z.mul_le_mono_nonneg_r; lia).
  replace (a * p * q)%Z with (a * (p * q))%Z by ring. lia.
Qed.

(** A literal that denotes a non-zero integer of magnitude below [2 ^ 53]
    is truthy and is printed as the decimal numeral of that integer. *)
Lemma safe_integer_text (x : number) (n : Z) :
  denotes x n -> (n <> 0)%Z -> (Z.abs n < 2 ^ 53)%Z ->
  number_truthy x = true
  /\ number_toString x
     = ((if (n <? 0)%Z then "-" else "") ++ Z_digits (Z.abs n))%string.
Proof.
  intros Hx Hn Hs.
  assert (Hp : (0 < 10 ^ Z.of_nat (decimals x))%Z)
    by (apply Z.pow_pos_nonneg; lia).
  assert (Hzero : rounds_to_zero x = false).
  { unfold rounds_to_zero. rewrite Hx, far_from_zero by exact Hn.
    rewrite orb_false_r. apply Z.eqb_neq. nia. }
  unfold number_truthy, number_toString, safe_integer.
  rewrite Hzero. split; [reflexivity |].
  rewrite Hx, strip_zeros_integer.
  apply Z.ltb_lt in Hs. rewrite Hs.
  replace (n * 10 ^ Z.of_nat (decimals x) <? 0)%Z with (n <? 0)%Z;
    [reflexivity |].
  destruct (Z.ltb_spec n 0), (Z.ltb_spec (n * 10 ^ Z.of_nat (decimals x)) 0);
    try reflexivity; nia.
Qed.

Lemma number_of_Z_denotes (z : Z) : denotes (number_of_Z z) z.
Proof. unfold denotes, number_of_Z. cbn. lia. Qed.

(** ** Properties of the calls in flight *)

Section SchedulingFacts.
Context {St : Type} {E : Type -> Type}.

Lemma take_task_split (n : nat) (l : list (Task St E))
      (t : Task St E) (others : list (Task St E)) :
  take_task n l = Some (t, others) ->
  exists before after,
    l = (before ++ t :: after)%list /\ others = (before ++ after)%list.
Proof.
  revert l t others. induction n as [|n IH]; intros [|x rest] t others H;
    cbn in H; try discriminate H.
  - inversion H; subst. exists [], others. split; reflexivity.
  - destruct (take_task n rest) as [[y others']|] eqn:Ht; [| discriminate H].
    inversion H; subst.
    destruct (IH rest t others' Ht) as (before & after & Hl & Ho).
    exists (x :: before), after. subst. split; reflexivity.
Qed.

Lemma take_task_in_range (n : nat) (l : list (Task St E)) :
  (n < length l)%nat -> take_task n l <> None.
Proof.
  revert n. induction l as [|t l IH]; intros n Hn.
  - cbn in Hn. lia.
  - destruct n as [|n]; cbn; [discriminate |].
    specialize (IH n). destruct (take_task n l) as [[x o]|].
    + discriminate.
    + apply IH. cbn in Hn. lia.
Qed.

(** With nothing else going on, a call runs as it does alone. *)
Lemma run_among_undisturbed {R : Type} (env : forall X, E X -> Settled X)
      (p : Async St E R) (w : World St) :
  run_among env undisturbed p w = run env p w.
Proof.
  revert w. induction p as [r | err | s k IH | X e k IH]; intros w; cbn;
    try reflexivity.
  - apply IH.
  - apply IH.
Qed.

End SchedulingFacts.

(** ** Properties of the traces *)

Lemma requests_app (t u : list Event) :
  requests (t ++ u) = (requests t ++ requests u)%list.
Proof. unfold requests. apply flat_map_app. Qed.

Lemma console_app (t u : list Event) :
  console (t ++ u) = (console t ++ console u)%list.
Proof. unfold console. apply flat_map_app. Qed.

(** ** Properties of the detail screen *)

Section DetailScreen.
Import Detail.

(** A run of [fetchMovieDetail] on which both responses are successful
    and both bodies parse ends in this world. *)
Lemma fetchMovieDetail_success
      (apiKey : option string) (id : string)
      (env : forall X, Awaited X -> Settled X) (w : World State)
      (m : MovieDetail) (c : Credits) :
  both_succeed apiKey id env m c ->
  fst (run env (fetchMovieDetail apiKey id) w) =
  {| ui := {| movie := Some m; credits := Some c;
              loading := false; error := None |};
     trace := ((trace w ++ [Requested (movie_url apiKey id)])
                ++ [Requested (credits_url apiKey id)])%list |}.
Proof.
  intros (mr & cr & Hboth & Hm & Hc & Hmj & Hcj).
  unfold fetchMovieDetail. cbn.
  rewrite Hboth. cbn. rewrite Hm, Hc. cbn.
  rewrite Hmj. cbn. rewrite Hcj. cbn. reflexivity.
Qed.

Lemma ready_renders (s : State) (m : MovieDetail) :
  ready s m -> render s = DetailScreen (detail_markup m (credits s)).
Proof.
  intros (Hl & He & Hm). unfold render. rewrite Hl, He, Hm. reflexivity.
Qed.

(** C1. When both responses arrive and either has a non-success status,
    [fetchMovieDetail] sets [error] to "Failed to fetch movie details." if
    the movie response failed and to "Failed to fetch credits." otherwise,
    leaves [movie] and [credits] as they were, clears [loading], and the
    screen shows that message. *)
Theorem failed_status_sets_fixed_error
        (apiKey : option string) (id : string)
        (env : forall X, Awaited X -> Settled X) (w : World State)
        (movieRes creditsRes : Response) :
  env _ (BothResponses (movie_url apiKey id) (credits_url apiKey id))
  = Fulfilled (movieRes, creditsRes) ->
  ok movieRes = false \/ ok creditsRes = false ->
  let w' := fst (run env (fetchMovieDetail apiKey id) w) in
  let msg := if ok movieRes then "Failed to fetch credits."
             else "Failed to fetch movie details." in
  error (ui w') = Some msg
  /\ movie (ui w') = movie (ui w)
  /\ credits (ui w') = credits (ui w)
  /\ loading (ui w') = false
  /\ render (ui w') = ErrorScreen msg "Go Back" RouterBack.
Proof.
  intros Hboth Hfail. unfold fetchMovieDetail. cbn.
  rewrite Hboth. cbn.
  destruct (ok movieRes) eqn:Hm; cbn.
  - destruct Hfail as [Hf | Hf]; [discriminate Hf |].
    rewrite Hf. cbn. repeat split; reflexivity.
  - repeat split; reflexivity.
Qed.

(** The scenario of the specification: a fresh mount for id 603 on which
    the credits request returns HTTP 404. *)
Lemma failed_status_sets_fixed_error_witness :
  let w' := fst (run (Sample.detail_network 200 404)
                     (fetchMovieDetail None "603") mounted) in
  error (ui w') = Some "Failed to fetch credits."
  /\ movie (ui w') = None
  /\ credits (ui w') = None
  /\ loading (ui w') = false
  /\ render (ui w') = ErrorScreen "Failed to fetch credits." "Go Back" RouterBack.
Proof.
  apply (failed_status_sets_fixed_error
           None "603" (Sample.detail_network 200 404) mounted
           Sample.r200 Sample.r404).
  - reflexivity.
  - right. reflexivity.
Defined.

Lemma settle_at_step (apiKey : option string) (n : nat)
      (env : forall X, Awaited X -> Settled X) (c : Config State Awaited) :
  (n < length (pending c))%nat -> step apiKey c (settle_at n env c).
Proof.
  intros Hn. unfold settle_at.
  destruct (take_task n (pending c)) as [[[X e k] others]|] eqn:Ht.
  - destruct (take_task_split _ _ _ _ Ht) as (before & after & Hl & Ho).
    subst others. apply (step_settle apiKey c before after X e k (env X e)).
    exact Hl.
  - exfalso. exact (take_task_in_range n (pending c) Hn Ht).
Qed.

(** C2, as stated, fails for a fetch that another run overlaps: the
    effect runs twice for id 603, the first run gets 200 and 404, and the
    second run then gets 200 and 200 with both bodies; its bodies are
    stored and loading is cleared, but the error of the first run is
    still set and the screen shows it.  It also fails where the movie
    body is [null]: the body is stored as it is and the screen shows
    nothing. *)
Lemma overlapped_success_shows_error :
  let c2 := advance (effect None (Some "603"))
                    (world (advance (effect None (Some "603")) mounted []))
                    (pending (advance (effect None (Some "603")) mounted [])) in
  let c3 := settle_at 0 (Sample.detail_network 200 404) c2 in
  let c6 := settle_at 0 (Sample.detail_network 200 200)
              (settle_at 0 (Sample.detail_network 200 200)
                 (settle_at 0 (Sample.detail_network 200 200) c3)) in
  let s := ui (trigger None (Some "603") Sample.null_movie_network mounted) in
  (reachable None c6
   /\ both_succeed None "603" (Sample.detail_network 200 200)
                   Sample.matrix Sample.matrix_credits
   /\ pending c6 = []
   /\ ui (world c6)
      = {| movie := Some Sample.matrix; credits := Some Sample.matrix_credits;
           loading := false; error := Some "Failed to fetch credits." |}
   /\ render (ui (world c6))
      = ErrorScreen "Failed to fetch credits." "Go Back" RouterBack)
  /\ (both_parse None "603" Sample.null_movie_network
                 None (Some Sample.matrix_credits)
      /\ s = {| movie := None; credits := Some Sample.matrix_credits;
                loading := false; error := None |}
      /\ render s = Nothing).
Proof.
  cbv zeta. split.
  - split; [| split; [| repeat split; reflexivity]].
    + repeat (eapply reach_step; [| apply settle_at_step; cbn; lia]).
      eapply reach_step;
        [| apply (step_effect None
                    (advance (effect None (Some "603")) mounted [])
                    (Some "603"))].
      eapply reach_step;
        [apply reach_initial
        | apply (step_effect None initial_config (Some "603"))].
    + exists Sample.r200, Sample.r200. repeat split; reflexivity.
  - split; [| split; reflexivity].
    exists Sample.r200, Sample.r200. repeat split; reflexivity.
Qed.

(** C2, amended.  When both responses are successful and both bodies
    parse, [fetchMovieDetail] stores the two parsed bodies as they are
    and clears [loading], whatever else happens while it waits.  It
    leaves [error] as it finds it at the end: unset when nothing else set
    it meanwhile, as when no other run overlaps the fetch.  With [error]
    unset and a movie body that is not [null], the screen is in its Ready
    state and renders the detail view of the stored movie and credits. *)
Theorem successful_fetch_stores_bodies
        (apiKey : option string) (id : string)
        (env : forall X, Awaited X -> Settled X)
        (between : forall X, Awaited X -> World State -> World State)
        (w : World State)
        (mb : option MovieDetail) (cb : option Credits) :
  both_parse apiKey id env mb cb ->
  let w' := fst (run_among env between (fetchMovieDetail apiKey id) w) in
  (movie (ui w') = mb /\ credits (ui w') = cb /\ loading (ui w') = false)
  /\ ((forall X (e : Awaited X) w0,
          error (ui (between X e w0)) = error (ui w0)) ->
      error (ui w') = None)
  /\ (forall m, mb = Some m -> error_shown (error (ui w')) = None ->
      ready (ui w') m
      /\ render (ui w') = DetailScreen (detail_markup m cb))
  /\ ui (fst (run env (fetchMovieDetail apiKey id) w))
     = {| movie := mb; credits := cb; loading := false; error := None |}.
Proof.
  intros (mr & cr & Hboth & Hm & Hc & Hmj & Hcj).
  assert (Hrun : forall b : forall X, Awaited X -> World State -> World State,
             let w1 := fst (run_among env b (fetchMovieDetail apiKey id) w) in
             movie (ui w1) = mb /\ credits (ui w1) = cb
             /\ loading (ui w1) = false
             /\ ((forall X (e : Awaited X) w0,
                     error (ui (b X e w0)) = error (ui w0)) ->
                 error (ui w1) = None)).
  { intros b. unfold fetchMovieDetail. cbn.
    rewrite Hboth. cbn. rewrite Hm, Hc. cbn.
    rewrite Hmj. cbn. rewrite Hcj. cbn.
    repeat split. intros Hb. rewrite !Hb. reflexivity. }
  cbv zeta. destruct (Hrun between) as (Hmv & Hcr & Hl & He).
  split; [repeat split; assumption |].
  split; [exact He |].
  split.
  - intros m Hsome Hshown.
    assert (Hready : ready (fst (run_among env between
                                           (fetchMovieDetail apiKey id) w)).(ui) m).
    { repeat split; [exact Hl | exact Hshown | rewrite Hmv; exact Hsome]. }
    split; [exact Hready |].
    rewrite (ready_renders _ _ Hready), Hcr. reflexivity.
  - rewrite <- run_among_undisturbed.
    destruct (Hrun undisturbed) as (Hmv' & Hcr' & Hl' & He').
    cbv zeta in *.
    destruct (ui (fst (run_among env undisturbed
                                 (fetchMovieDetail apiKey id) w)))
      as [mv crd ld er]; cbn in *.
    rewrite Hmv', Hcr', Hl', He'; [reflexivity |].
    intros X e w0. reflexivity.
Qed.

Lemma successful_fetch_stores_bodies_witness :
  let w' := fst (run_among (Sample.detail_network 200 200) undisturbed
                           (fetchMovieDetail None "603") mounted) in
  (movie (ui w') = Some Sample.matrix
   /\ credits (ui w') = Some Sample.matrix_credits
   /\ loading (ui w') = false)
  /\ ((forall X (e : Awaited X) w0,
          error (ui (undisturbed X e w0)) = error (ui w0)) ->
      error (ui w') = None)
  /\ (forall m, Some Sample.matrix = Some m ->
      error_shown (error (ui w')) = None ->
      ready (ui w') m
      /\ render (ui w')
         = DetailScreen (detail_markup m (Some Sample.matrix_credits)))
  /\ ui (fst (run (Sample.detail_network 200 200)
                  (fetchMovieDetail None "603") mounted))
     = {| movie := Some Sample.matrix; credits := Some Sample.matrix_credits;
          loading := false; error := None |}.
Proof.
  apply (successful_fetch_stores_bodies
           None "603" (Sample.detail_network 200 200) undisturbed mounted
           (Some Sample.matrix) (Some Sample.matrix_credits)).
  exists Sample.r200, Sample.r200. repeat split; reflexivity.
Defined.

(** The effect with an identifier is [fetchMovieDetail]. *)
Lemma trigger_success
      (apiKey : option string) (id : string)
      (env : forall X, Awaited X -> Settled X) (w : World State)
      (m : MovieDetail) (c : Credits) :
  string_truthy id = true ->
  both_succeed apiKey id env m c ->
  trigger apiKey (Some id) env w =
  {| ui := {| movie := Some m; credits := Some c;
              loading := false; error := None |};
     trace := ((trace w ++ [Requested (movie_url apiKey id)])
                ++ [Requested (credits_url apiKey id)])%list |}.
Proof.
  intros Hid H. unfold trigger, effect. rewrite Hid. cbn [negb].
  apply fetchMovieDetail_success. exact H.
Qed.

(** C6. Triggering the effect again for the same identifier after a
    success sends both requests again and replaces the stored movie and
    credits by the new bodies: nothing of the first run is reused. *)
Theorem retrigger_refetches_and_replaces
        (apiKey : option string) (id : string)
        (env1 env2 : forall X, Awaited X -> Settled X) (w : World State)
        (m1 m2 : MovieDetail) (c1 c2 : Credits) :
  string_truthy id = true ->
  both_succeed apiKey id env1 m1 c1 ->
  both_succeed apiKey id env2 m2 c2 ->
  let w1 := trigger apiKey (Some id) env1 w in
  let w2 := trigger apiKey (Some id) env2 w1 in
  (movie (ui w1) = Some m1 /\ credits (ui w1) = Some c1)
  /\ requests (trace w2)
     = (requests (trace w1)
        ++ [movie_url apiKey id; credits_url apiKey id])%list
  /\ movie (ui w2) = Some m2
  /\ credits (ui w2) = Some c2
  /\ loading (ui w2) = false
  /\ error (ui w2) = None.
Proof.
  intros Hid H1 H2. cbv zeta.
  rewrite (trigger_success apiKey id env2 _ m2 c2 Hid H2).
  rewrite (trigger_success apiKey id env1 w m1 c1 Hid H1).
  cbn [ui trace movie credits loading error].
  repeat split; try reflexivity.
  rewrite (requests_app (_ ++ _) [_]), (requests_app (_ ++ _) [_]).
  cbn. rewrite <- app_assoc. reflexivity.
Qed.

Lemma retrigger_refetches_and_replaces_witness :
  let w1 := trigger None (Some "603") (Sample.detail_network 200 200) mounted in
  let w2 := trigger None (Some "603") (Sample.second_network) w1 in
  (movie (ui w1) = Some Sample.matrix
   /\ credits (ui w1) = Some Sample.matrix_credits)
  /\ requests (trace w2)
     = (requests (trace w1)
        ++ [movie_url None "603"; credits_url None "603"])%list
  /\ movie (ui w2) = Some Sample.matrix_recut
  /\ credits (ui w2) = Some Sample.no_credits
  /\ loading (ui w2) = false
  /\ error (ui w2) = None.
Proof.
  apply (retrigger_refetches_and_replaces
           None "603" (Sample.detail_network 200 200) Sample.second_network
           mounted Sample.matrix Sample.matrix_recut
           Sample.matrix_credits Sample.no_credits).
  - reflexivity.
  - exists Sample.r200, Sample.r200. repeat split; reflexivity.
  - exists Sample.r200, Sample.r200. repeat split; reflexivity.
Defined.

(** C4, as stated, fails on the state reached by a successful run followed
    by a run on which the credits request returns 404: [loading] is false,
    [error] is set and a movie is present, so the stated conditions of
    Error and of Ready both apply, and [render] returns the error screen,
    not the detail view.  It also fails where [error] is set to the empty
    string: the stated condition of Error applies and [render] returns
    nothing. *)
Lemma policy_table_overlaps :
  let s := ui (trigger None (Some "603") (Sample.detail_network 200 404)
                 (trigger None (Some "603") (Sample.detail_network 200 200)
                          mounted)) in
  let s' := {| movie := None; credits := None; loading := false;
               error := Some "" |} in
  (policy_condition Error s
   /\ policy_condition Ready s
   /\ render s = ErrorScreen "Failed to fetch credits." "Go Back" RouterBack
   /\ ~ policy_view Ready s (render s))
  /\ (policy_condition Error s'
      /\ render s' = Nothing
      /\ ~ policy_view Error s' (render s')).
Proof.
  cbn. repeat split; try discriminate.
  - intros (m & _ & H). discriminate H.
  - intros (m & _ & H). discriminate H.
Qed.

(** C4, amended.  [render] is a total function of the state, and of the
    four cases, tested in order, exactly one applies to any state:
    loading renders the spinner only; not loading with a non-empty error
    renders the message and the back action; not loading with no (or an
    empty) error and no movie renders nothing; not loading with no (or an
    empty) error and a movie renders the detail view. *)
Theorem render_four_cases (s : State) :
  (exists p, render_condition p s
             /\ forall q, render_condition q s -> q = p)
  /\ (forall p, render_condition p s -> policy_view p s (render s))
  /\ (forall p, render_condition p s ->
      match p with
      | Error => exists msg, msg <> "" /\ error s = Some msg
      | Empty | Ready => error s = None \/ error s = Some ""
      | Loading => True
      end).
Proof.
  destruct s as [mv cr ld er].
  unfold render, render_condition. cbn [loading error movie credits].
  assert (Hshown : forall msg, error_shown er = Some msg ->
                               er = Some msg /\ msg <> "").
  { intros msg. destruct er as [[|a t]|]; cbn; intros H; inversion H.
    split; [reflexivity | discriminate]. }
  assert (Hhidden : error_shown er = None -> er = None \/ er = Some "").
  { destruct er as [[|a t]|]; cbn; intros H; try discriminate H; auto. }
  split; [| split].
  - destruct ld.
    + exists Loading. split; [reflexivity |].
      intros [] H; cbn [loading error movie credits] in H; try reflexivity;
        destruct H as [H _]; discriminate H.
    + destruct (error_shown er) as [msg|] eqn:He.
      * exists Error. split; [split; [reflexivity | discriminate] |].
        intros [] H; cbn [loading error movie credits] in H; try reflexivity;
          try discriminate H; destruct H as (_ & H & _); discriminate H.
      * destruct mv as [m|].
        -- exists Ready. split; [repeat split; discriminate |].
           intros [] H; cbn [loading error movie credits] in H; try reflexivity; try discriminate H.
           ++ destruct H as [_ H]. contradiction H. reflexivity.
           ++ destruct H as (_ & _ & H). discriminate H.
        -- exists Empty. split; [repeat split |].
           intros [] H; cbn [loading error movie credits] in H; try reflexivity; try discriminate H.
           ++ destruct H as [_ H]. contradiction H. reflexivity.
           ++ destruct H as (_ & _ & H). contradiction H. reflexivity.
  - intros [] H; cbn [loading error movie credits] in H; cbn.
    + rewrite H. reflexivity.
    + destruct H as [Hl He]. rewrite Hl.
      destruct (error_shown er) as [msg|] eqn:Hs; [| contradiction He; reflexivity].
      exists msg. split; [apply Hshown; reflexivity | reflexivity].
    + destruct H as (Hl & He & Hm). rewrite Hl, He, Hm. reflexivity.
    + destruct H as (Hl & He & Hm). rewrite Hl, He.
      destruct mv as [m|]; [| contradiction Hm; reflexivity].
      exists m. split; reflexivity.
  - intros [] H; cbn [loading error movie credits] in H.
    + exact I.
    + destruct H as [_ He].
      destruct (error_shown er) as [msg|] eqn:Hs; [| contradiction He; reflexivity].
      exists msg. destruct (Hshown msg eq_refl) as [H1 H2]. split; assumption.
    + destruct H as (_ & He & _). apply Hhidden. exact He.
    + destruct H as (_ & He & _). apply Hhidden. exact He.
Qed.

(** C9, as stated, fails on a runtime of ten to the twenty-first: it is
    a positive integer, and the template literal prints it in exponent
    form, "1e+21 minutes", not as its decimal numeral. *)
Lemma huge_runtime_in_exponent_form :
  let s := {| movie := Some Sample.endless; credits := None;
              loading := false; error := None |} in
  ready s Sample.endless
  /\ denotes (runtime Sample.endless) (10 ^ 21)
  /\ (0 < 10 ^ 21)%Z
  /\ (exists d,
         render s = DetailScreen d
         /\ runtime_text d = "1e+21 minutes"
         /\ runtime_text d <> Z_digits (10 ^ 21) ++ " minutes").
Proof.
  cbv zeta. split; [repeat split; reflexivity |].
  split; [reflexivity |]. split; [reflexivity |].
  exists (detail_markup Sample.endless None).
  split; [reflexivity |].
  assert (H : runtime_text (detail_markup Sample.endless None)
              = "1e+21 minutes") by (vm_compute; reflexivity).
  split; [exact H |]. rewrite H. vm_compute. discriminate.
Qed.

(** C9, amended.  In the Ready state a runtime of 0 is rendered as "N/A",
    not as "0 minutes", and a runtime that is a positive integer [n]
    below [2 ^ 53], received with or without a zero fraction, as the
    decimal numeral of [n] followed by " minutes". *)
Theorem runtime_zero_renders_NA (s : State) (m : MovieDetail) :
  ready s m ->
  exists d,
    render s = DetailScreen d
    /\ (mantissa (runtime m) = 0%Z ->
        runtime_text d = "N/A" /\ runtime_text d <> "0 minutes")
    /\ (forall n : Z, (0 < n < 2 ^ 53)%Z -> denotes (runtime m) n ->
        runtime_text d = Z_digits n ++ " minutes").
Proof.
  intros H. exists (detail_markup m (credits s)).
  split; [apply ready_renders; exact H |].
  unfold detail_markup. cbn [runtime_text]. split.
  - intros Hz. rewrite (zero_is_falsy _ Hz).
    split; [reflexivity | discriminate].
  - intros n Hn Hr.
    destruct (safe_integer_text (runtime m) n Hr) as [Ht Hs]; [lia | lia |].
    rewrite Ht, Hs.
    destruct (Z.ltb_spec n 0) as [Hneg | _]; [lia |].
    rewrite Z.abs_eq by lia. reflexivity.
Qed.

(** The stored movie has runtime 0 after the second sample run, runtime
    136 after the first, and runtime 136.0 in the third state. *)
Lemma runtime_zero_renders_NA_witness :
  (exists d,
      render (ui (trigger None (Some "603") Sample.second_network mounted))
      = DetailScreen d
      /\ runtime_text d = "N/A" /\ runtime_text d <> "0 minutes")
  /\ (exists d,
         render (ui (trigger None (Some "603")
                             (Sample.detail_network 200 200) mounted))
         = DetailScreen d
         /\ runtime_text d = "136 minutes")
  /\ (exists d,
         render {| movie := Some Sample.matrix_decimal; credits := None;
                   loading := false; error := None |}
         = DetailScreen d
         /\ runtime_text d = "136 minutes").
Proof.
  split; [| split].
  - destruct (runtime_zero_renders_NA
                (ui (trigger None (Some "603") Sample.second_network mounted))
                Sample.matrix_recut) as (d & Hd & Hzero & _).
    + repeat split; reflexivity.
    + exists d. split; [exact Hd | apply Hzero; reflexivity].
  - destruct (runtime_zero_renders_NA
                (ui (trigger None (Some "603")
                             (Sample.detail_network 200 200) mounted))
                Sample.matrix) as (d & Hd & _ & Hpos).
    + repeat split; reflexivity.
    + exists d. split; [exact Hd |].
      apply (Hpos 136%Z); [lia | reflexivity].
  - destruct (runtime_zero_renders_NA
                {| movie := Some Sample.matrix_decimal; credits := None;
                   loading := false; error := None |}
                Sample.matrix_decimal) as (d & Hd & _ & Hpos).
    + repeat split; reflexivity.
    + exists d. split; [exact Hd |].
      apply (Hpos 136%Z); [lia | reflexivity].
Defined.

(** C10. In the Ready state the Cast section holds the cards of the first
    10 entries of the cast list, in their order, so at most 10; with an
    empty cast list (or no credits) there is no Cast section; and a
    rating of 0 is rendered as "N/A", not as "0/10". *)
Theorem cast_capped_and_zero_rating_NA (s : State) (m : MovieDetail) :
  ready s m ->
  exists d,
    render s = DetailScreen d
    /\ (forall c, credits s = Some c -> cast c <> [] ->
        cast_section d = Some (map cast_card (firstn 10 (cast c)))
        /\ (length (map cast_card (firstn 10 (cast c))) <= 10)%nat)
    /\ (forall c, credits s = Some c -> cast c = [] -> cast_section d = None)
    /\ (credits s = None -> cast_section d = None)
    /\ (mantissa (vote_average m) = 0%Z ->
        rating_text d = "N/A" /\ rating_text d <> "0/10").
Proof.
  intros H. exists (detail_markup m (credits s)).
  split; [apply ready_renders; exact H |].
  unfold detail_markup. cbn [cast_section rating_text].
  split; [| split; [| split]].
  - intros c Hc Hne. rewrite Hc. split.
    + destruct (cast c) as [|x l]; [contradiction Hne; reflexivity |].
      reflexivity.
    + rewrite length_map. apply firstn_le_length.
  - intros c Hc He. rewrite Hc, He. reflexivity.
  - intros Hc. rewrite Hc. reflexivity.
  - intros Hz. rewrite (zero_is_falsy _ Hz).
    split; [reflexivity | discriminate].
Qed.

Lemma cast_capped_and_zero_rating_NA_witness :
  exists d,
    render Sample.crowded = DetailScreen d
    /\ cast_section d = Some (map cast_card (firstn 10 Sample.crowd))
    /\ (length (map cast_card (firstn 10 Sample.crowd)) <= 10)%nat
    /\ rating_text d = "N/A".
Proof.
  destruct (cast_capped_and_zero_rating_NA Sample.crowded Sample.matrix_recut)
    as (d & Hd & Hcast & _ & _ & Hrating).
  - repeat split; reflexivity.
  - exists d. split; [exact Hd |].
    destruct (Hcast {| cast := Sample.crowd |} eq_refl) as [Hsec Hlen].
    + discriminate.
    + split; [exact Hsec | split; [exact Hlen |]].
      apply Hrating. reflexivity.
Defined.

End DetailScreen.

(** ** Properties of the search screen *)

Section SearchScreen.
Import Search.

(** C8. Submitting with an empty query runs to its end at once: the three
    state cells stay as they are, no request is sent, and no call is left
    waiting. *)
Theorem empty_query_submit_changes_nothing
        (apiKey : option string) (w : World State)
        (others : list (Task State Awaited))
        (env : forall X, Awaited X -> Settled X) :
  query (ui w) = [] ->
  let c' := advance (handleSearch apiKey (query (ui w))) w others in
  ui (world c') = ui w
  /\ requests (trace (world c')) = requests (trace w)
  /\ pending c' = others
  /\ ui (submit apiKey env w) = ui w
  /\ requests (trace (submit apiKey env w)) = requests (trace w).
Proof.
  intros Hq. unfold submit. rewrite Hq. cbn.
  rewrite requests_app. cbn. rewrite app_nil_r.
  repeat split; reflexivity.
Qed.

Lemma empty_query_submit_changes_nothing_witness :
  let w := {| ui := {| query := []; movies := [Sample.the_matrix];
                       loading := false |};
              trace := [Requested "earlier"] |} in
  let c' := advance (handleSearch None (query (ui w))) w [] in
  ui (world c') = ui w
  /\ requests (trace (world c')) = requests (trace w)
  /\ pending c' = []
  /\ ui (submit None Sample.search_network w) = ui w
  /\ requests (trace (submit None Sample.search_network w))
     = requests (trace w).
Proof.
  apply (empty_query_submit_changes_nothing
           None
           {| ui := {| query := []; movies := [Sample.the_matrix];
                       loading := false |};
              trace := [Requested "earlier"] |}
           [] Sample.search_network).
  reflexivity.
Defined.

Lemma nonempty_truthy (q : jsstring) : q <> [] -> jsstring_truthy q = true.
Proof. destruct q; [intros H; contradiction H; reflexivity | reflexivity]. Qed.

(** The first stretch of a submission whose query encodes: the request
    is on its way, the list is empty and the loading flag is up. *)
Lemma handleSearch_sends
      (apiKey : option string) (q : jsstring) (encoded : string)
      (w : World State) :
  q <> [] ->
  encodeURIComponent q = Some encoded ->
  fst (run_sync (handleSearch apiKey q) w) =
  {| ui := {| query := query (ui w); movies := []; loading := true |};
     trace := ((trace w ++ [DefaultPrevented])
                ++ [Requested (search_url apiKey encoded)])%list |}.
Proof.
  intros Hq He. unfold handleSearch.
  destruct q as [|c q']; [contradiction Hq; reflexivity |].
  cbn [jsstring_truthy negb]. rewrite He. reflexivity.
Qed.

(** C3, as stated, fails on a query that holds a surrogate without its
    partner: [encodeURIComponent] throws, the handler catches it, and no
    request is sent. *)
Lemma lone_surrogate_sends_no_request :
  let w := Sample.typed [55296%N] in
  query (ui w) <> []
  /\ isWellFormed (query (ui w)) = false
  /\ encodeURIComponent (query (ui w)) = None
  /\ requests (trace (submit None Sample.search_network w)) = []
  /\ console (trace (submit None Sample.search_network w))
     = [("Error searching movies:", URIError)]
  /\ movies (ui (submit None Sample.search_network w)) = []
  /\ loading (ui (submit None Sample.search_network w)) = false.
Proof.
  cbn. repeat split; try reflexivity. discriminate.
Qed.

(** C3, amended.  For every non-empty query that is well formed (no
    surrogate without its partner, so that [encodeURIComponent] accepts
    it), a submission sends exactly one request, to the search endpoint
    with the encoded query, and ends with loading cleared; when the
    response arrives and its body parses, the result list is the body's
    [results] array, or the empty list when that is absent. *)
Theorem submit_sends_one_encoded_request
        (apiKey : option string) (env : forall X, Awaited X -> Settled X)
        (w : World State) :
  query (ui w) <> [] ->
  isWellFormed (query (ui w)) = true ->
  let w' := submit apiKey env w in
  exists encoded,
    encodeURIComponent (query (ui w)) = Some encoded
    /\ requests (trace w')
       = (requests (trace w) ++ [search_url apiKey encoded])%list
    /\ loading (ui w') = false
    /\ query (ui w') = query (ui w)
    /\ (forall response data,
          env _ (FetchResponse (search_url apiKey encoded))
          = Fulfilled response ->
          env _ (ResponseJson response) = Fulfilled data ->
          movies (ui w') = results_or_empty data).
Proof.
  intros Hq Hwf. destruct (well_formed_encodes _ Hwf) as [encoded He].
  exists encoded. split; [exact He |].
  unfold submit, handleSearch.
  rewrite (nonempty_truthy _ Hq). cbn [negb]. rewrite He. cbn.
  destruct (env Response (FetchResponse (search_url apiKey encoded)))
    as [response | err] eqn:Hf; cbn.
  - destruct (env SearchData (ResponseJson response)) as [data | err] eqn:Hj;
      cbn; rewrite !requests_app; cbn; rewrite ?app_nil_r;
      (split; [| split; [| split]]); try reflexivity;
      intros r d Hr Hd; inversion Hr; subst r; rewrite Hj in Hd;
      inversion Hd; reflexivity.
  - rewrite !requests_app. cbn. rewrite ?app_nil_r.
    (split; [| split; [| split]]); try reflexivity.
    intros r d Hr. discriminate Hr.
Qed.

(** The search scenario of the specification: "Matrix", two results. *)
Lemma submit_sends_one_encoded_request_witness :
  let w' := submit None Sample.search_network (Sample.typed (js "Matrix")) in
  requests (trace w')
  = ["https://api.themoviedb.org/3/search/movie?api_key=undefined&query=Matrix"]
  /\ loading (ui w') = false
  /\ query (ui w') = js "Matrix"
  /\ movies (ui w') = [Sample.the_matrix; Sample.matrix_reloaded].
Proof.
  destruct (submit_sends_one_encoded_request
              None Sample.search_network (Sample.typed (js "Matrix")))
    as (encoded & Henc & Hreq & Hload & Hquery & Hmovies).
  - discriminate.
  - reflexivity.
  - assert (E : encoded = "Matrix") by (inversion Henc; reflexivity).
    subst encoded.
    split; [exact Hreq | split; [exact Hload | split; [exact Hquery |]]].
    apply (Hmovies Sample.s200 Sample.found); reflexivity.
Defined.



(** *** The screen over time *)

Lemma run_sync_resumes (p : Handler unit) :
  resumes_calmly p ->
  forall w : World State,
    match snd (run_sync p w) with
    | Finished _ => True
    | Suspended _ k => forall o, stretch_calm (k o) /\ resumes_calmly (k o)
    end.
Proof.
  induction p as [r | err | s k IH | X e k IH]; cbn; intros H w.
  - exact I.
  - exact I.
  - apply (IH H).
  - exact H.
Qed.

Lemma advance_calm (p : Handler unit) (w : World State)
      (others : list (Task State Awaited)) :
  stretch_calm p -> resumes_calmly p ->
  calm (ui w) -> Forall task_calm others ->
  calm (ui (world (advance p w others)))
  /\ Forall task_calm (pending (advance p w others)).
Proof.
  intros Hs Hr Hw Ho.
  pose proof (Hs w Hw) as Hs'. pose proof (run_sync_resumes p Hr w) as Hr'.
  unfold advance. destruct (run_sync p w) as [w' [res | X e k]]; cbn in *.
  - split; assumption.
  - split; [assumption |].
    apply Forall_app. split; [assumption |].
    constructor; [exact Hr' | constructor].
Qed.

Lemma setQuery_calm (text : jsstring) :
  stretch_calm (setQuery text) /\ resumes_calmly (setQuery text).
Proof. split; [calm_stretch | exact I]. Qed.

Lemma handleSearch_calm (apiKey : option string) (q : jsstring) :
  stretch_calm (handleSearch apiKey q) /\ resumes_calmly (handleSearch apiKey q).
Proof.
  unfold handleSearch. destruct q as [|c q']; [split; [calm_stretch | exact I] |].
  cbn [jsstring_truthy negb].
  destruct (encodeURIComponent (c :: q')) as [encoded|];
    [| split; [calm_stretch | exact I]].
  split; [calm_stretch |].
  cbn. intros [response | err]; (split; [calm_stretch |]); cbn; [| exact I].
  intros [data | err]; (split; [calm_stretch | exact I]).
Qed.

Lemma reachable_calm (apiKey : option string) (c : Config State Awaited) :
  reachable apiKey c ->
  calm (ui (world c)) /\ Forall task_calm (pending c).
Proof.
  induction 1 as [| c c' Hreach [Hw Hp] Hstep].
  - split; [intros H; reflexivity | constructor].
  - destruct Hstep as [c text | c | c before after X e k o Hpending].
    + apply advance_calm; try assumption; apply setQuery_calm.
    + apply advance_calm; try assumption; apply handleSearch_calm.
    + rewrite Hpending in Hp. apply Forall_app in Hp. destruct Hp as [Hb Ha].
      apply Forall_cons_iff in Ha. destruct Ha as [Hk Ha].
      apply advance_calm; try assumption.
      * apply (Hk o).
      * apply (Hk o).
      * apply Forall_app. split; assumption.
Qed.

Lemma settle_first_step (apiKey : option string)
      (env : forall X, Awaited X -> Settled X) (c : Config State Awaited) :
  pending c <> [] -> step apiKey c (settle_first env c).
Proof.
  intros H. unfold settle_first.
  destruct (pending c) as [| [X e k] others] eqn:Hp; [contradiction H; reflexivity |].
  apply (step_settle apiKey c [] others X e k (env X e)). exact Hp.
Qed.

(** C5. In every state the search screen can be in, the result list is
    empty whenever the loading flag is up, and the grid of results is on
    the screen only when it is down; a submission with a query leaves its
    first stretch, in which the request is sent, with the list cleared. *)
Theorem results_and_loading_never_together
        (apiKey : option string) (c : Config State Awaited) :
  reachable apiKey c ->
  (loading (ui (world c)) = true -> movies (ui (world c)) = [])
  /\ (grid (render (ui (world c))) <> None -> loading (ui (world c)) = false)
  /\ (query (ui (world c)) <> [] ->
      movies (ui (world (advance (handleSearch apiKey (query (ui (world c))))
                                 (world c) (pending c)))) = []).
Proof.
  intros H. destruct (reachable_calm apiKey c H) as [Hcalm _].
  split; [exact Hcalm | split].
  - unfold render. cbn [grid]. destruct (loading (ui (world c))); cbn.
    + intros Hg. contradiction Hg. reflexivity.
    + reflexivity.
  - intros Hq. unfold advance, handleSearch.
    rewrite (nonempty_truthy _ Hq). cbn [negb].
    destruct (encodeURIComponent (query (ui (world c)))); reflexivity.
Qed.

Lemma results_and_loading_never_together_witness :
  let c := Sample.answered in
  movies (ui (world c)) = [Sample.the_matrix; Sample.matrix_reloaded]
  /\ (loading (ui (world c)) = true -> movies (ui (world c)) = [])
  /\ (grid (render (ui (world c))) <> None -> loading (ui (world c)) = false)
  /\ (query (ui (world c)) <> [] ->
      movies (ui (world (advance (handleSearch None (query (ui (world c))))
                                 (world c) (pending c)))) = []).
Proof.
  split; [reflexivity |].
  apply (results_and_loading_never_together None Sample.answered).
  apply (reach_step None
           (settle_first Sample.search_network Sample.searching)).
  - apply (reach_step None Sample.searching).
    + apply (reach_step None
               (advance (setQuery (js "Matrix")) (world initial_config)
                        (pending initial_config))).
      * apply (reach_step None initial_config);
          [apply reach_initial | apply step_change].
      * apply (step_submit None
                 (advance (setQuery (js "Matrix")) (world initial_config)
                          (pending initial_config))).
    + apply settle_first_step. discriminate.
  - apply settle_first_step. discriminate.
Defined.

End SearchScreen.

(** ** Further properties of the detail screen *)

Section DetailScreenFurther.
Import Detail.

(** X1. The first stretch of [fetchMovieDetail] raises the loading flag,
    clears the error, keeps what was stored, and sends both requests
    before the call waits for either answer; the screen shows the
    spinner, also over a movie stored earlier. *)
Theorem fetch_sends_both_before_waiting
        (apiKey : option string) (id : string) (w : World State)
        (others : list (Task State Awaited)) :
  let c := advance (fetchMovieDetail apiKey id) w others in
  ui (world c) = {| movie := movie (ui w); credits := credits (ui w);
                    loading := true; error := None |}
  /\ trace (world c)
     = (trace w ++ [Requested (movie_url apiKey id);
                    Requested (credits_url apiKey id)])%list
  /\ (exists k, pending c
                = (others ++ [Waiting (BothResponses (movie_url apiKey id)
                                                     (credits_url apiKey id)) k])%list)
  /\ render (ui (world c)) = Spinner.
Proof.
  cbn. rewrite <- app_assoc. repeat split; try reflexivity.
  eexists. reflexivity.
Qed.

(** X2. Whatever the network does, and whatever else happens while it
    waits, a run of [fetchMovieDetail] ends with loading cleared and in
    one of two ways.  Either both answers were successful and both
    bodies parsed: then movie and credits are the two bodies, and the
    error is unset if nothing else set it meanwhile.  Or the run failed:
    then the error is the text of the failure, and movie and credits are
    what they were if nothing else wrote them meanwhile.  The run adds
    exactly the two requests to those sent. *)
Theorem fetch_stores_all_or_nothing
        (apiKey : option string) (id : string)
        (env : forall X, Awaited X -> Settled X)
        (between : forall X, Awaited X -> World State -> World State)
        (w : World State) :
  let w' := fst (run_among env between (fetchMovieDetail apiKey id) w) in
  loading (ui w') = false
  /\ ((forall X (e : Awaited X) w0,
          requests (trace (between X e w0)) = requests (trace w0)) ->
      requests (trace w')
      = (requests (trace w)
         ++ [movie_url apiKey id; credits_url apiKey id])%list)
  /\ ((exists mb cb,
         both_parse apiKey id env mb cb
         /\ movie (ui w') = mb /\ credits (ui w') = cb
         /\ ((forall X (e : Awaited X) w0,
                 error (ui (between X e w0)) = error (ui w0)) ->
             error (ui w') = None))
      \/ (exists err,
            fails apiKey id env err
            /\ error (ui w') = Some (error_text err)
            /\ ((forall X (e : Awaited X) w0,
                    movie (ui (between X e w0)) = movie (ui w0)
                    /\ credits (ui (between X e w0)) = credits (ui w0)) ->
                movie (ui w') = movie (ui w)
                /\ credits (ui w') = credits (ui w)))).
Proof.
  unfold fetchMovieDetail, both_parse, fails. cbn.
  destruct (env _ (BothResponses (movie_url apiKey id) (credits_url apiKey id)))
    as [[mr cr] | err] eqn:Hboth; cbn.
  - destruct (ok mr) eqn:Hm; cbn.
    + destruct (ok cr) eqn:Hc; cbn.
      * destruct (env _ (MovieJson mr)) as [mb | err] eqn:Hmj; cbn.
        -- destruct (env _ (CreditsJson cr)) as [cb | err] eqn:Hcj; cbn.
           ++ split; [reflexivity | split].
              ** intros Hq.
              repeat (first [rewrite Hq | rewrite requests_app | progress cbn]).
              rewrite ?app_nil_r, <- ?app_assoc. reflexivity.
              ** left. exists mb, cb. split; [| repeat split].
                 --- exists mr, cr. repeat split; assumption.
                 --- intros He. rewrite !He. reflexivity.
           ++ split; [reflexivity | split].
              ** intros Hq.
              repeat (first [rewrite Hq | rewrite requests_app | progress cbn]).
              rewrite ?app_nil_r, <- ?app_assoc. reflexivity.
              ** right. exists err. split; [| split; [reflexivity |]].
                 --- right. exists mr, cr. split; [reflexivity |].
                     right. right. repeat split; try assumption.
                     right. exists mb. split; assumption.
                 --- intros Hk.
                     rewrite !(proj1 (Hk _ _ _)), !(proj2 (Hk _ _ _)).
                     split; reflexivity.
        -- split; [reflexivity | split].
           ++ intros Hq.
              repeat (first [rewrite Hq | rewrite requests_app | progress cbn]).
              rewrite ?app_nil_r, <- ?app_assoc. reflexivity.
           ++ right. exists err. split; [| split; [reflexivity |]].
              ** right. exists mr, cr. split; [reflexivity |].
                 right. right. repeat split; try assumption.
                 left. assumption.
              ** intros Hk.
                 rewrite !(proj1 (Hk _ _ _)), !(proj2 (Hk _ _ _)).
                 split; reflexivity.
      * split; [reflexivity | split].
        -- intros Hq.
              repeat (first [rewrite Hq | rewrite requests_app | progress cbn]).
              rewrite ?app_nil_r, <- ?app_assoc. reflexivity.
        -- right. exists (ErrorObj "Failed to fetch credits.").
           split; [| split; [reflexivity |]].
           ++ right. exists mr, cr. split; [reflexivity |].
              right. left. repeat split; assumption.
           ++ intros Hk.
              rewrite !(proj1 (Hk _ _ _)), !(proj2 (Hk _ _ _)).
              split; reflexivity.
    + split; [reflexivity | split].
      * intros Hq.
              repeat (first [rewrite Hq | rewrite requests_app | progress cbn]).
              rewrite ?app_nil_r, <- ?app_assoc. reflexivity.
      * right. exists (ErrorObj "Failed to fetch movie details.").
        split; [| split; [reflexivity |]].
        -- right. exists mr, cr. split; [reflexivity |].
           left. split; [assumption | reflexivity].
        -- intros Hk.
           rewrite !(proj1 (Hk _ _ _)), !(proj2 (Hk _ _ _)).
           split; reflexivity.
  - split; [reflexivity | split].
    + intros Hq.
              repeat (first [rewrite Hq | rewrite requests_app | progress cbn]).
              rewrite ?app_nil_r, <- ?app_assoc. reflexivity.
    + right. exists err. split; [left; reflexivity | split; [reflexivity |]].
      intros Hk.
      rewrite !(proj1 (Hk _ _ _)), !(proj2 (Hk _ _ _)).
      split; reflexivity.
Qed.

(** X3. When [Promise.all] rejects, or a body fails to parse after two
    successful statuses, the error shown is the message of what was
    thrown if that is an [Error], and "An unexpected error occurred."
    otherwise; movie and credits stay as they were, also when the movie
    body had parsed before the credits body failed. *)
Theorem rejection_shows_its_message
        (apiKey : option string) (id : string)
        (env : forall X, Awaited X -> Settled X) (w : World State)
        (err : Thrown) :
  env _ (BothResponses (movie_url apiKey id) (credits_url apiKey id))
  = Rejected err
  \/ (exists mr cr,
        env _ (BothResponses (movie_url apiKey id) (credits_url apiKey id))
        = Fulfilled (mr, cr)
        /\ ok mr = true /\ ok cr = true
        /\ (env _ (MovieJson mr) = Rejected err
            \/ (exists m, env _ (MovieJson mr) = Fulfilled m
                          /\ env _ (CreditsJson cr) = Rejected err))) ->
  let w' := fst (run env (fetchMovieDetail apiKey id) w) in
  error (ui w')
  = Some (match err with
          | ErrorObj message => message
          | NotAnError _ => "An unexpected error occurred."
          end)
  /\ movie (ui w') = movie (ui w)
  /\ credits (ui w') = credits (ui w)
  /\ loading (ui w') = false
  /\ console (trace w')
     = (console (trace w) ++ [("Error fetching movie details:", err)])%list.
Proof.
  intros H. unfold fetchMovieDetail. cbn.
  destruct H as [Hboth | (mr & cr & Hboth & Hm & Hc & H)]; rewrite Hboth; cbn.
  - rewrite !console_app. cbn. rewrite ?app_nil_r.
    repeat split; reflexivity.
  - rewrite Hm, Hc. cbn.
    destruct H as [Hmj | (m & Hmj & Hcj)]; rewrite Hmj; cbn;
      [| rewrite Hcj; cbn];
      rewrite !console_app; cbn; rewrite ?app_nil_r;
      repeat split; reflexivity.
Qed.

Lemma rejection_shows_its_message_witness :
  let w' := fst (run (Sample.unreachable_network (NotAnError "aborted"))
                     (fetchMovieDetail None "603") mounted) in
  error (ui w') = Some "An unexpected error occurred."
  /\ movie (ui w') = None
  /\ credits (ui w') = None
  /\ loading (ui w') = false
  /\ console (trace w')
     = [("Error fetching movie details:", NotAnError "aborted")].
Proof.
  apply (rejection_shows_its_message
           None "603" (Sample.unreachable_network (NotAnError "aborted"))
           mounted (NotAnError "aborted")).
  left. reflexivity.
Defined.

(** X4. Without an identifier ([undefined] or the empty string) the
    effect does nothing: no state cell changes, nothing is sent, no call
    is left waiting.  On a fresh mount the loading flag therefore stays
    up and the screen stays on the spinner. *)
Theorem effect_without_id_does_nothing
        (apiKey : option string) (id : option string)
        (env : forall X, Awaited X -> Settled X) (w : World State)
        (others : list (Task State Awaited)) :
  id = None \/ id = Some "" ->
  trigger apiKey id env w = w
  /\ advance (effect apiKey id) w others = {| world := w; pending := others |}
  /\ render (ui (trigger apiKey id env mounted)) = Spinner.
Proof.
  intros [H | H]; subst id; unfold trigger; cbn; destruct w; repeat split.
Qed.

Lemma effect_without_id_does_nothing_witness :
  trigger None (Some "") (Sample.detail_network 200 200) mounted = mounted
  /\ advance (effect None (Some "")) mounted [] = {| world := mounted; pending := [] |}
  /\ render (ui (trigger None (Some "") (Sample.detail_network 200 200) mounted))
     = Spinner.
Proof.
  apply (effect_without_id_does_nothing
           None (Some "") (Sample.detail_network 200 200) mounted []).
  right. reflexivity.
Defined.

(** X6. Runs are not cancelled and a success does not clear the error:
    when the effect runs for [a] and then for [b], the run for [a] fails
    in any way ([Promise.all] rejects, a status is not successful, or a
    body does not parse) and the run for [b] then succeeds, the bodies
    of [b] are stored and loading is cleared, yet the error of [a] is
    still set.  The screen shows that error instead of the movie when
    its text is not empty, and the movie when it is. *)
Theorem earlier_failure_hides_later_success
        (apiKey : option string) (a b : string)
        (envA envB : forall X, Awaited X -> Settled X) (w : World State)
        (err : Thrown) (m : MovieDetail) (cr : Credits) :
  string_truthy a = true ->
  string_truthy b = true ->
  fails apiKey a envA err ->
  both_succeed apiKey b envB m cr ->
  let c2 := advance (effect apiKey (Some b))
                    (world (advance (effect apiKey (Some a)) w []))
                    (pending (advance (effect apiKey (Some a)) w [])) in
  let c3 := settle_at 1 envA (settle_at 1 envA (settle_at 0 envA c2)) in
  let c6 := settle_at 0 envB (settle_at 0 envB (settle_at 0 envB c3)) in
  ui (world c6) = {| movie := Some m; credits := Some cr;
                     loading := false; error := Some (error_text err) |}
  /\ pending c6 = []
  /\ (error_text err <> "" ->
      render (ui (world c6))
      = ErrorScreen (error_text err) "Go Back" RouterBack)
  /\ (error_text err = "" ->
      render (ui (world c6)) = DetailScreen (detail_markup m (Some cr))).
Proof.
  intros Ha Hb HA (mr & cres & HB & Hm & Hc & Hmj & Hcj).
  assert (Hshow : forall t : string,
             (t <> "" -> error_shown (Some t) = Some t)
             /\ (t = "" -> error_shown (Some t) = None)).
  { intros [|x t]; split; intros H; cbn; try reflexivity;
      try discriminate H. contradiction H. reflexivity. }
  cbv zeta.
  match goal with
  | |- ui (world ?c) = _ /\ _ => set (c6 := c)
  end.
  assert (Hend : ui (world c6)
                 = {| movie := Some m; credits := Some cr;
                      loading := false; error := Some (error_text err) |}
                 /\ pending c6 = []).
  { subst c6. unfold effect. rewrite Ha, Hb. cbn [negb].
    unfold fetchMovieDetail, settle_at, advance. cbn.
    destruct HA as [HA | (amr & acr & HA & Hcase)]; rewrite HA; cbn.
    - rewrite HB. cbn. rewrite Hm, Hc. cbn. rewrite Hmj. cbn.
      rewrite Hcj. cbn. split; reflexivity.
    - destruct Hcase as [[Hok Herr] | [(Hok & Hok' & Herr)
                                       | (Hok & Hok' & Hparse)]].
      + rewrite Hok. cbn. subst err.
        rewrite HB. cbn. rewrite Hm, Hc. cbn. rewrite Hmj. cbn.
        rewrite Hcj. cbn. split; reflexivity.
      + rewrite Hok, Hok'. cbn. subst err.
        rewrite HB. cbn. rewrite Hm, Hc. cbn. rewrite Hmj. cbn.
        rewrite Hcj. cbn. split; reflexivity.
      + rewrite Hok, Hok'. cbn.
        destruct Hparse as [Hp | (mb & Hp & Hp')]; rewrite Hp; cbn;
          [| rewrite Hp'; cbn];
          rewrite HB; cbn; rewrite Hm, Hc; cbn; rewrite Hmj; cbn;
          rewrite Hcj; cbn; split; reflexivity. }
  destruct Hend as [Hui Hpend].
  split; [exact Hui | split; [exact Hpend |]].
  rewrite Hui. unfold render. cbn [loading error movie credits].
  split; intros Ht.
  - rewrite (proj1 (Hshow _) Ht). reflexivity.
  - rewrite (proj2 (Hshow _) Ht). reflexivity.
Qed.

Lemma earlier_failure_hides_later_success_witness :
  let c2 := advance (effect None (Some "604"))
                    (world (advance (effect None (Some "603")) mounted []))
                    (pending (advance (effect None (Some "603")) mounted [])) in
  let c3 := settle_at 1 (Sample.detail_network 200 404)
              (settle_at 1 (Sample.detail_network 200 404)
                 (settle_at 0 (Sample.detail_network 200 404) c2)) in
  let c6 := settle_at 0 (Sample.detail_network 200 200)
              (settle_at 0 (Sample.detail_network 200 200)
                 (settle_at 0 (Sample.detail_network 200 200) c3)) in
  ui (world c6) = {| movie := Some Sample.matrix;
                     credits := Some Sample.matrix_credits;
                     loading := false;
                     error := Some "Failed to fetch credits." |}
  /\ pending c6 = []
  /\ ("Failed to fetch credits." <> "" ->
      render (ui (world c6))
      = ErrorScreen "Failed to fetch credits." "Go Back" RouterBack)
  /\ ("Failed to fetch credits." = "" ->
      render (ui (world c6))
      = DetailScreen (detail_markup Sample.matrix
                                    (Some Sample.matrix_credits))).
Proof.
  apply (earlier_failure_hides_later_success
           None "603" "604" (Sample.detail_network 200 404)
           (Sample.detail_network 200 200) mounted
           (ErrorObj "Failed to fetch credits.")
           Sample.matrix Sample.matrix_credits).
  - reflexivity.
  - reflexivity.
  - right. exists Sample.r200, Sample.r404. split; [reflexivity |].
    right. left. repeat split; reflexivity.
  - exists Sample.r200, Sample.r200. repeat split; reflexivity.
Defined.

Lemma append_nonempty (a b : string) : b <> "" -> (a ++ b)%string <> "".
Proof.
  intros Hb. destruct a as [|x a]; cbn; [exact Hb | discriminate].
Qed.

Lemma string_or_nonempty (a b : string) : b <> "" -> string_or a b <> "".
Proof.
  intros Hb. unfold string_or. destruct a as [|x a]; cbn;
    [exact Hb | discriminate].
Qed.

(** X7. The detail view has no blank text: the title of the page, the
    overview, the release date, the runtime and the rating are never the
    empty string, whatever fields of the movie are empty or zero. *)
Theorem detail_view_has_no_blank_text (m : MovieDetail) (cr : option Credits) :
  let d := detail_markup m cr in
  page_title d <> ""
  /\ overview_text d <> ""
  /\ release_text d <> ""
  /\ runtime_text d <> ""
  /\ rating_text d <> "".
Proof.
  unfold detail_markup.
  cbn [page_title overview_text release_text runtime_text rating_text].
  split; [apply append_nonempty; discriminate |].
  split; [apply string_or_nonempty; discriminate |].
  split; [apply string_or_nonempty; discriminate |].
  split.
  - destruct (number_truthy (runtime m));
      [apply append_nonempty |]; discriminate.
  - destruct (number_truthy (vote_average m));
      [apply append_nonempty |]; discriminate.
Qed.

End DetailScreenFurther.

(** ** Further properties of the search screen *)

Section SearchScreenFurther.
Import Search.

(** X8. Typing a text into the field of a screen that shows no results
    and is not loading already puts "No movies found." on the screen,
    though nothing was submitted: no request is sent and no call is
    started. *)
Theorem typing_alone_shows_no_results
        (c : Config State Awaited) (text : jsstring) :
  text <> [] ->
  loading (ui (world c)) = false ->
  movies (ui (world c)) = [] ->
  let c' := advance (setQuery text) (world c) (pending c) in
  no_results (render (ui (world c'))) = true
  /\ grid (render (ui (world c'))) = None
  /\ trace (world c') = trace (world c)
  /\ pending c' = pending c.
Proof.
  intros Ht Hl Hm. cbn. rewrite Hl, Hm, (nonempty_truthy _ Ht).
  repeat split; reflexivity.
Qed.

Lemma typing_alone_shows_no_results_witness :
  let c' := advance (setQuery (js "M")) (world initial_config)
                    (pending initial_config) in
  no_results (render (ui (world c'))) = true
  /\ grid (render (ui (world c'))) = None
  /\ trace (world c') = []
  /\ pending c' = [].
Proof.
  apply (typing_alone_shows_no_results initial_config (js "M")).
  - discriminate.
  - reflexivity.
  - reflexivity.
Defined.

(** X9. The skeleton, the grid of results and "No movies found." are
    never on the screen together, and none of the three is shown exactly
    when the screen is not loading and has neither results nor a text in
    the field. *)
Theorem search_regions_exclude_each_other (s : State) :
  let v := render s in
  (skeleton v = true -> grid v = None /\ no_results v = false)
  /\ (grid v <> None -> skeleton v = false /\ no_results v = false)
  /\ (no_results v = true -> skeleton v = false /\ grid v = None)
  /\ ((skeleton v = false /\ grid v = None /\ no_results v = false)
      <-> (loading s = false /\ movies s = [] /\ query s = [])).
Proof.
  destruct s as [q ms l]. unfold render. cbn.
  destruct l, ms as [|m ms], q as [|u q]; cbn;
    repeat split; intros; try discriminate; try reflexivity;
    repeat match goal with
           | H : _ /\ _ |- _ => destruct H
           | H : ?x <> ?x |- _ => contradiction H; reflexivity
           end; try discriminate.
Qed.

(** *** The request URL *)

Lemma all_chars_append (p : ascii -> bool) (a b : string) :
  all_chars p (a ++ b) = all_chars p a && all_chars p b.
Proof.
  induction a as [|x a IH]; cbn; [reflexivity |].
  rewrite IH. apply andb_assoc.
Qed.

Lemma hex_digit_component (n : N) : component_char (hex_digit n) = true.
Proof.
  unfold hex_digit. generalize (N.to_nat n). intros k.
  do 16 (destruct k as [|k]; [reflexivity |]).
  cbn. destruct k; reflexivity.
Qed.

Lemma percent_escape_component (cp : N) :
  all_chars component_char (percent_escape cp) = true.
Proof.
  unfold percent_escape. generalize (utf8_octets cp). intros l.
  induction l as [|b l IH]; [reflexivity |].
  assert (Hb : all_chars component_char (percent_octet b) = true).
  { unfold percent_octet. cbn [all_chars].
    rewrite !hex_digit_component. reflexivity. }
  destruct l as [|b' l]; [exact Hb |].
  change (String.concat "" (map percent_octet (b :: b' :: l)))
    with (percent_octet b ++ "" ++ String.concat "" (map percent_octet (b' :: l))).
  rewrite !all_chars_append, Hb, IH. reflexivity.
Qed.

Lemma unreserved_component (c : code_unit) :
  uri_unreserved c = true -> component_char (ascii_of_N c) = true.
Proof.
  intros H. unfold component_char.
  assert (Hc : (c < 256)%N).
  { unfold uri_unreserved, in_range in H. cbn [existsb] in H.
    rewrite ?orb_true_iff, ?andb_true_iff, ?N.leb_le, ?N.eqb_eq in H.
    intuition (try discriminate; lia). }
  rewrite N_ascii_embedding by exact Hc. rewrite H. reflexivity.
Qed.

Lemma encodeURIComponent_component (s : jsstring) (encoded : string) :
  encodeURIComponent s = Some encoded ->
  all_chars component_char encoded = true.
Proof.
  assert (H : forall n s' e, (length s' <= n)%nat ->
              encodeURIComponent s' = Some e ->
              all_chars component_char e = true).
  { induction n as [|n IH]; intros [|c rest] e Hlen He;
      cbn in Hlen; try lia;
      try (inversion He; reflexivity).
    cbn [encodeURIComponent] in He.
    destruct (uri_unreserved c) eqn:Hu.
    - destruct (encodeURIComponent rest) as [r|] eqn:Hr; [| discriminate He].
      inversion He; subst e. cbn [all_chars].
      rewrite (unreserved_component c Hu). apply (IH rest r); [lia | exact Hr].
    - destruct (is_trail_surrogate c); [discriminate He |].
      destruct (is_lead_surrogate c).
      + destruct rest as [|d rest']; [discriminate He |].
        destruct (is_trail_surrogate d); [| discriminate He].
        destruct (encodeURIComponent rest') as [r|] eqn:Hr; [| discriminate He].
        inversion He; subst e.
        rewrite all_chars_append, percent_escape_component.
        apply (IH rest' r); [cbn in Hlen; lia | exact Hr].
      + destruct (encodeURIComponent rest) as [r|] eqn:Hr; [| discriminate He].
        inversion He; subst e.
        rewrite all_chars_append, percent_escape_component.
        apply (IH rest r); [lia | exact Hr]. }
  apply (H (length s) s encoded). apply le_n.
Qed.

(** X10. Every request a submission sends is the search endpoint followed
    by the API key and a query made only of unreserved characters,
    percent signs and hexadecimal digits: the text of the user cannot put
    an ampersand, an equals sign, a hash, a question mark, a slash, a
    space or a plus sign into the URL. *)
Theorem search_request_is_escaped
        (apiKey : option string) (env : forall X, Awaited X -> Settled X)
        (w : World State) :
  (requests (trace (submit apiKey env w)) = requests (trace w)
   \/ exists encoded,
       requests (trace (submit apiKey env w))
       = (requests (trace w) ++ [search_url apiKey encoded])%list
       /\ encodeURIComponent (query (ui w)) = Some encoded
       /\ all_chars component_char encoded = true)
  /\ forallb (fun a => negb (component_char a))
             (list_ascii_of_string "&=#?/ +") = true.
Proof.
  split; [| reflexivity].
  unfold submit, handleSearch.
  destruct (query (ui w)) as [|c q] eqn:Hq.
  - left. cbn. rewrite requests_app. cbn. apply app_nil_r.
  - cbn [jsstring_truthy negb].
    destruct (encodeURIComponent (c :: q)) as [encoded|] eqn:He.
    + right. exists encoded.
      split; [| split; [reflexivity | exact (encodeURIComponent_component _ _ He)]].
      cbn.
      destruct (env Response (FetchResponse (search_url apiKey encoded)))
        as [r | err]; cbn;
        [destruct (env SearchData (ResponseJson r)) as [d | err]; cbn |];
        rewrite !requests_app; cbn; rewrite ?app_nil_r; reflexivity.
    + left. cbn. rewrite !requests_app. cbn. rewrite ?app_nil_r. reflexivity.
Qed.

(** X11. Whatever the network does, a submission with a text ends with
    loading cleared and the text untouched, and in one of two ways: the
    response arrived and its body parsed, the result list is what the
    body gives and nothing is logged; or the result list is empty and the
    failure is logged once.  No failure passes without a log line, and
    none leaves results behind. *)
Theorem submission_ends_one_of_two_ways
        (apiKey : option string) (env : forall X, Awaited X -> Settled X)
        (w : World State) :
  query (ui w) <> [] ->
  let w' := submit apiKey env w in
  loading (ui w') = false
  /\ query (ui w') = query (ui w)
  /\ ((exists encoded response data,
         encodeURIComponent (query (ui w)) = Some encoded
         /\ env _ (FetchResponse (search_url apiKey encoded))
            = Fulfilled response
         /\ env _ (ResponseJson response) = Fulfilled data
         /\ movies (ui w') = results_or_empty data
         /\ console (trace w') = console (trace w))
      \/ (exists err,
            movies (ui w') = []
            /\ console (trace w')
               = (console (trace w) ++ [("Error searching movies:", err)])%list)).
Proof.
  intros Hq. unfold submit, handleSearch.
  rewrite (nonempty_truthy _ Hq). cbn [negb].
  destruct (encodeURIComponent (query (ui w))) as [encoded|] eqn:He; cbn.
  - destruct (env Response (FetchResponse (search_url apiKey encoded)))
      as [r | err] eqn:Hf; cbn.
    + destruct (env SearchData (ResponseJson r)) as [d | err] eqn:Hj; cbn;
        rewrite !console_app; cbn; rewrite ?app_nil_r;
        (split; [reflexivity | split; [reflexivity |]]).
      * left. exists encoded, r, d. repeat split; try reflexivity; assumption.
      * right. exists err. split; reflexivity.
    + rewrite !console_app. cbn. rewrite ?app_nil_r.
      split; [reflexivity | split; [reflexivity |]].
      right. exists err. split; reflexivity.
  - rewrite !console_app. cbn. rewrite ?app_nil_r.
    split; [reflexivity | split; [reflexivity |]].
    right. exists URIError. split; reflexivity.
Qed.

Lemma submission_ends_one_of_two_ways_witness :
  let w' := submit None Sample.offline_network (Sample.typed (js "Matrix")) in
  loading (ui w') = false
  /\ query (ui w') = js "Matrix"
  /\ movies (ui w') = []
  /\ console (trace w') = [("Error searching movies:", Sample.offline)].
Proof.
  destruct (submission_ends_one_of_two_ways
              None Sample.offline_network (Sample.typed (js "Matrix")))
    as (Hl & Hq & [(e & r & d & _ & Hf & _) | (err & Hm & Hc)]).
  - discriminate.
  - discriminate Hf.
  - split; [exact Hl | split; [exact Hq | split; [exact Hm |]]].
    reflexivity.
Defined.

(** X12. Searches are not cancelled: when a text [q1] is submitted, then
    [q2] is typed and submitted, and the answers to the second search
    arrive first, the loading flag goes down with the first search still
    in flight, and when its answers arrive the screen shows the results
    for [q1] under the text [q2]. *)
Theorem earlier_search_overwrites_later
        (apiKey : option string) (q1 q2 : jsstring) (enc1 enc2 : string)
        (envA envB : forall X, Awaited X -> Settled X) (w : World State)
        (rA rB : Response) (dA dB : SearchData) :
  q1 <> [] -> q2 <> [] ->
  encodeURIComponent q1 = Some enc1 ->
  encodeURIComponent q2 = Some enc2 ->
  envA _ (FetchResponse (search_url apiKey enc1)) = Fulfilled rA ->
  envA _ (ResponseJson rA) = Fulfilled dA ->
  envB _ (FetchResponse (search_url apiKey enc2)) = Fulfilled rB ->
  envB _ (ResponseJson rB) = Fulfilled dB ->
  let c1 := advance (handleSearch apiKey q1) w [] in
  let c2 := advance (setQuery q2) (world c1) (pending c1) in
  let c3 := advance (handleSearch apiKey (query (ui (world c2))))
                    (world c2) (pending c2) in
  let c5 := settle_at 1 envB (settle_at 1 envB c3) in
  let c7 := settle_at 0 envA (settle_at 0 envA c5) in
  requests (trace (world c3))
  = (requests (trace w)
     ++ [search_url apiKey enc1; search_url apiKey enc2])%list
  /\ (ui (world c5) = {| query := q2; movies := results_or_empty dB;
                         loading := false |}
      /\ length (pending c5) = 1%nat)
  /\ (ui (world c7) = {| query := q2; movies := results_or_empty dA;
                         loading := false |}
      /\ pending c7 = []
      /\ requests (trace (world c7)) = requests (trace (world c3))).
Proof.
  intros H1 H2 He1 He2 HfA HjA HfB HjB.
  unfold handleSearch. rewrite (nonempty_truthy _ H1). cbn [negb].
  rewrite He1. cbn.
  rewrite (nonempty_truthy _ H2). cbn [negb]. rewrite He2.
  unfold settle_at, advance. cbn.
  rewrite HfB. cbn. rewrite HjB. cbn.
  rewrite HfA. cbn. rewrite HjA. cbn.
  rewrite !requests_app. cbn. rewrite ?app_nil_r, <- ?app_assoc.
  repeat split; reflexivity.
Qed.

Lemma earlier_search_overwrites_later_witness :
  let c1 := advance (handleSearch None (js "Matrix"))
                    (Sample.typed (js "Matrix")) [] in
  let c2 := advance (setQuery (js "Alien")) (world c1) (pending c1) in
  let c3 := advance (handleSearch None (query (ui (world c2))))
                    (world c2) (pending c2) in
  let c5 := settle_at 1 Sample.empty_network
              (settle_at 1 Sample.empty_network c3) in
  let c7 := settle_at 0 Sample.search_network
              (settle_at 0 Sample.search_network c5) in
  requests (trace (world c3))
  = [search_url None "Matrix"; search_url None "Alien"]
  /\ (ui (world c5) = {| query := js "Alien"; movies := []; loading := false |}
      /\ length (pending c5) = 1%nat)
  /\ (ui (world c7)
      = {| query := js "Alien";
           movies := [Sample.the_matrix; Sample.matrix_reloaded];
           loading := false |}
      /\ pending c7 = []
      /\ requests (trace (world c7)) = requests (trace (world c3))).
Proof.
  apply (earlier_search_overwrites_later
           None (js "Matrix") (js "Alien") "Matrix" "Alien"
           Sample.search_network Sample.empty_network
           (Sample.typed (js "Matrix"))
           Sample.s200 Sample.s200 Sample.found Sample.nothing_found);
    try reflexivity; discriminate.
Defined.

(** *** The loading flag and the calls in flight *)

Lemma search_settle_at_step (apiKey : option string) (n : nat)
      (env : forall X, Awaited X -> Settled X) (c : Config State Awaited) :
  (n < length (pending c))%nat -> step apiKey c (settle_at n env c).
Proof.
  intros Hn. unfold settle_at.
  destruct (take_task n (pending c)) as [[[X e k] others]|] eqn:Ht.
  - destruct (take_task_split _ _ _ _ Ht) as (before & after & Hl & Ho).
    subst others. apply (step_settle apiKey c before after X e k (env X e)).
    exact Hl.
  - exfalso. exact (take_task_in_range n (pending c) Hn Ht).
Qed.

Lemma run_sync_idle (p : Handler unit) :
  resumes_idle p ->
  forall w : World State,
    match snd (run_sync p w) with
    | Finished _ => True
    | Suspended _ k => forall o, ends_idle (k o) /\ resumes_idle (k o)
    end.
Proof.
  induction p as [r | err | s k IH | X e k IH]; cbn; intros H w.
  - exact I.
  - exact I.
  - apply (IH H).
  - exact H.
Qed.

(** A stretch that leaves the flag as it found it, or down, when it ends
    its call keeps the flag from staying up with nothing in flight. *)
Lemma advance_idle (p : Handler unit) (w : World State)
      (others : list (Task State Awaited)) :
  (forall w0 : World State,
      match snd (run_sync p w0) with
      | Finished _ =>
        loading (ui (fst (run_sync p w0))) = loading (ui w0)
        \/ loading (ui (fst (run_sync p w0))) = false
      | Suspended _ _ => True
      end) ->
  resumes_idle p ->
  (loading (ui w) = true -> others <> []) ->
  Forall task_idle others ->
  (loading (ui (world (advance p w others))) = true ->
   pending (advance p w others) <> [])
  /\ Forall task_idle (pending (advance p w others)).
Proof.
  intros Hfirst Hr Hw Ho.
  pose proof (Hfirst w) as Hf. pose proof (run_sync_idle p Hr w) as Hr'.
  unfold advance. destruct (run_sync p w) as [w' [res | X e k]]; cbn in *.
  - split; [| assumption].
    intros Hl. apply Hw. destruct Hf as [Hf | Hf]; congruence.
  - split.
    + intros _ Hnil. apply app_eq_nil in Hnil. destruct Hnil as [_ Hnil].
      discriminate Hnil.
    + apply Forall_app. split; [assumption |].
      constructor; [exact Hr' | constructor].
Qed.

Lemma handleSearch_idle (apiKey : option string) (q : jsstring) :
  (forall w0 : World State,
      match snd (run_sync (handleSearch apiKey q) w0) with
      | Finished _ =>
        loading (ui (fst (run_sync (handleSearch apiKey q) w0)))
        = loading (ui w0)
        \/ loading (ui (fst (run_sync (handleSearch apiKey q) w0))) = false
      | Suspended _ _ => True
      end)
  /\ resumes_idle (handleSearch apiKey q).
Proof.
  unfold handleSearch. destruct q as [|c q'].
  - split; [intros w0; cbn; left; reflexivity | exact I].
  - cbn [jsstring_truthy negb].
    destruct (encodeURIComponent (c :: q')) as [encoded|].
    + split; [intros w0; exact I |].
      cbn. intros [response | err]; cbn.
      * split; [intros w0; exact I |].
        intros [data | err]; (split; [intros w0; reflexivity | exact I]).
      * split; [intros w0; reflexivity | exact I].
    + split; [intros w0; cbn; right; reflexivity | exact I].
Qed.

Lemma reachable_idle (apiKey : option string) (c : Config State Awaited) :
  reachable apiKey c ->
  (loading (ui (world c)) = true -> pending c <> [])
  /\ Forall task_idle (pending c).
Proof.
  induction 1 as [| c c' Hreach [Hw Hp] Hstep].
  - split; [intros H; discriminate H | constructor].
  - destruct Hstep as [c text | c | c before after X e k o Hpending].
    + apply advance_idle; try assumption.
      * intros w0. cbn. left. reflexivity.
      * exact I.
    + apply advance_idle; try assumption; apply handleSearch_idle.
    + rewrite Hpending in Hp. apply Forall_app in Hp. destruct Hp as [Hb Ha].
      apply Forall_cons_iff in Ha. destruct Ha as [Hk Ha].
      pose proof (advance_idle (k o) (world c) (before ++ after)) as Hadv.
      pose proof (proj1 (Hk o)) as Hend. pose proof (proj2 (Hk o)) as Hres.
      pose proof (Hend (world c)) as Hend'.
      pose proof (run_sync_idle (k o) Hres (world c)) as Hr'.
      unfold advance in *.
      destruct (run_sync (k o) (world c)) as [w' [res | Y e' k']]; cbn in *.
      * split; [intros Hl; congruence | apply Forall_app; split; assumption].
      * split.
        -- intros _ Hnil. apply app_eq_nil in Hnil. destruct Hnil as [_ Hnil].
           discriminate Hnil.
        -- apply Forall_app. split; [apply Forall_app; split; assumption |].
           constructor; [exact Hr' | constructor].
Qed.

(** X13. In every state the search screen can be in, the loading flag is
    up only while a call of [handleSearch] is in flight: the skeleton is
    never left on the screen with nothing to wait for. *)
Theorem loading_only_while_in_flight
        (apiKey : option string) (c : Config State Awaited) :
  reachable apiKey c ->
  (loading (ui (world c)) = true -> pending c <> [])
  /\ (skeleton (render (ui (world c))) = true -> pending c <> []).
Proof.
  intros H. destruct (reachable_idle apiKey c H) as [Hl _].
  split; [exact Hl | exact Hl].
Qed.

Lemma loading_only_while_in_flight_witness :
  loading (ui (world Sample.searching)) = true
  /\ pending Sample.searching <> []
  /\ (skeleton (render (ui (world Sample.searching))) = true ->
      pending Sample.searching <> []).
Proof.
  split; [reflexivity |].
  destruct (loading_only_while_in_flight None Sample.searching) as [Hl Hs].
  - apply (reach_step None
             (advance (setQuery (js "Matrix")) (world initial_config)
                      (pending initial_config))).
    + apply (reach_step None initial_config);
        [apply reach_initial | apply step_change].
    + apply (step_submit None
               (advance (setQuery (js "Matrix")) (world initial_config)
                        (pending initial_config))).
  - split; [apply Hl; reflexivity | exact Hs].
Defined.

(** *** The links of the grid *)

Lemma N_to_uint_nonnil (n : N) : N.to_uint n <> Decimal.Nil.
Proof.
  destruct n as [|p]; [discriminate | apply DecimalPos.Unsigned.to_uint_nonnil].
Qed.

Lemma Z_digits_inj (a b : Z) :
  (0 <= a)%Z -> (0 <= b)%Z -> Z_digits a = Z_digits b -> a = b.
Proof.
  intros Ha Hb H. unfold Z_digits in H.
  assert (Hu : Some (N.to_uint (Z.to_N a)) = Some (N.to_uint (Z.to_N b))).
  { rewrite <- (NilZero.usu _ (N_to_uint_nonnil (Z.to_N a))).
    rewrite <- (NilZero.usu _ (N_to_uint_nonnil (Z.to_N b))).
    rewrite H. reflexivity. }
  inversion Hu as [Hn]. apply DecimalN.Unsigned.to_uint_inj in Hn. lia.
Qed.

Lemma Z_digits_no_sign (a : Z) (rest : string) :
  Z_digits a <> String "-" rest.
Proof.
  unfold Z_digits. destruct (N.to_uint (Z.to_N a)); cbn; discriminate.
Qed.

Lemma id_text (z : Z) :
  (Z.abs z < 2 ^ 53)%Z ->
  number_toString (number_of_Z z)
  = ((if (z <? 0)%Z then "-" else "") ++ Z_digits (Z.abs z))%string.
Proof.
  intros Hz. destruct (Z.eq_dec z 0) as [-> | Hne]; [reflexivity |].
  apply (safe_integer_text (number_of_Z z) z);
    [apply number_of_Z_denotes | exact Hne | exact Hz].
Qed.

(** X14. The link of a card names its movie as long as the identifiers
    are integers of magnitude below [2 ^ 53], the ones a double holds
    exactly: two such results with different identifiers never get the
    same link.  Beyond that the links can coincide: the identifiers
    [2 ^ 53] and [2 ^ 53 + 1] are read as the same double and get the
    same link. *)
Theorem card_links_tell_movies_apart :
  (forall m1 m2 : Movie,
      (Z.abs (id m1) < 2 ^ 53)%Z -> (Z.abs (id m2) < 2 ^ 53)%Z ->
      href (card m1) = href (card m2) -> id m1 = id m2)
  /\ (forall m1 m2 : Movie,
         id m1 = (2 ^ 53)%Z -> id m2 = (2 ^ 53 + 1)%Z ->
         href (card m1) = href (card m2)).
Proof.
  split.
  - intros m1 m2 Hs1 Hs2. unfold card. cbn [href].
    rewrite !id_text by assumption. intros H.
    cbn in H. inversion H as [Ht]. clear H.
    destruct (Z.ltb_spec (id m1) 0) as [H1 | H1];
      destruct (Z.ltb_spec (id m2) 0) as [H2 | H2]; cbn in Ht.
    + inversion Ht as [Hd]. apply Z_digits_inj in Hd; lia.
    + exfalso. symmetry in Ht. exact (Z_digits_no_sign _ _ Ht).
    + exfalso. exact (Z_digits_no_sign _ _ Ht).
    + apply Z_digits_inj in Ht; lia.
  - intros m1 m2 H1 H2. unfold card. cbn [href]. rewrite H1, H2.
    vm_compute. reflexivity.
Qed.

Lemma card_links_tell_movies_apart_witness :
  href (card Sample.the_matrix) = "/movie/1"
  /\ id Sample.the_matrix = id Sample.the_matrix
  /\ href (card Sample.the_matrix) <> href (card Sample.matrix_reloaded).
Proof.
  split; [reflexivity | split].
  - apply (proj1 card_links_tell_movies_apart
                 Sample.the_matrix Sample.the_matrix);
      [reflexivity | reflexivity | reflexivity].
  - intros H.
    apply (proj1 card_links_tell_movies_apart
                 Sample.the_matrix Sample.matrix_reloaded) in H;
      [discriminate H | reflexivity | reflexivity].
Defined.

Lemma substring_prefix (n : nat) (s : string) :
  prefix (substring 0 n s) s = true
  /\ String.length (substring 0 n s) = Nat.min n (String.length s).
Proof.
  revert s. induction n as [|n IH]; intros [|a s]; cbn; try (split; reflexivity).
  destruct (IH s) as [Hp Hl]. rewrite Hl.
  destruct (ascii_dec a a) as [_ | Hne]; [| contradiction Hne; reflexivity].
  split; [exact Hp | reflexivity].
Qed.

(** X15. The year on a card is the beginning of the release date, at most
    four characters of it (all of it when it is shorter), and a result
    with an empty release date shows no year. *)
Theorem card_year_is_a_prefix (m : Movie) :
  (release_date m = "" -> year (card m) = None)
  /\ (release_date m <> "" ->
      exists y, year (card m) = Some y
                /\ prefix y (release_date m) = true
                /\ String.length y
                   = Nat.min 4 (String.length (release_date m))).
Proof.
  unfold card. cbn [year]. split.
  - intros H. rewrite H. reflexivity.
  - intros H. destruct (release_date m) as [|a d] eqn:Hd;
      [contradiction H; reflexivity |].
    cbn [string_truthy]. exists (substring 0 4 (String a d)).
    split; [reflexivity | apply substring_prefix].
Qed.

End SearchScreenFurther.
